(** * seashell: a shallow embedding of [src/main.c]

    The shell reads a line, splits it at white space and either runs a
    builtin ([cd], [help], [exit]) or forks and executes a program.  The C
    functions are embedded as functions on an explicit [World] (standard
    input, working directory, [errno], the trace of observable actions);
    the answers of the operating system (allocation, [chdir], [fork],
    [execvp], [waitpid]) come from an [OS] record of oracles. *)

From Stdlib Require Import ZArith List Bool Ascii String Lia Arith.
From Equations Require Import Equations.
Import ListNotations.

Local Open Scope string_scope.
Local Open Scope Z_scope.

(** ** C constants and strings *)

Definition NUL : ascii := "000"%char.                (* '\0' *)
Definition newline : ascii := "010"%char.            (* '\n' *)
Definition LF : string := String newline EmptyString. (* "\n" *)

Definition EXIT_SUCCESS : Z := 0.
Definition EXIT_FAILURE : Z := 1.
Definition INT_MAX : Z := 2147483647.
Definition CSH_RL_BUFSIZE : Z := 1024.
Definition CSH_TOK_BUFSIZE : Z := 64.

(** [CSH_TOK_DELIM] is [" \t\r\n\a"]: space, tab, carriage return, newline,
    bell. *)
Definition CSH_TOK_DELIM : string :=
  String " "%char (String "009"%char (String "013"%char
    (String "010"%char (String "007"%char EmptyString)))).

(** A [char *] denotes the characters up to the first NUL. *)
Fixpoint cstr (s : string) : string :=
  match s with
  | EmptyString => EmptyString
  | String c s' => if Ascii.eqb c NUL then EmptyString else String c (cstr s')
  end.

(** [strchr(set, c) != NULL] for a character [c] other than NUL. *)
Fixpoint mem_char (c : ascii) (set : string) : bool :=
  match set with
  | EmptyString => false
  | String d set' => Ascii.eqb c d || mem_char c set'
  end.

Fixpoint all_chars (p : ascii -> bool) (s : string) : bool :=
  match s with
  | EmptyString => true
  | String c s' => p c && all_chars p s'
  end.

(** [strcmp]: the difference of the first two bytes that differ, read as
    [unsigned char]; the end of a string reads as the byte 0. *)
Fixpoint strcmp (a b : string) : Z :=
  match a, b with
  | EmptyString, EmptyString => 0
  | EmptyString, String d _ => 0 - Z.of_nat (nat_of_ascii d)
  | String c _, EmptyString => Z.of_nat (nat_of_ascii c)
  | String c a', String d b' =>
      if Ascii.eqb c d then strcmp a' b'
      else Z.of_nat (nat_of_ascii c) - Z.of_nat (nat_of_ascii d)
  end.

(** ** Argument vectors

    A [char **]: the slots of the array, [None] for the NULL pointer. *)
Definition TokenVector : Type := list (option string).

(** [args[i]]; the shell only reads slots up to the terminating NULL, a read
    past the end of the list yields NULL as well. *)
Definition args_at (args : TokenVector) (i : nat) : option string :=
  nth i args None.

(** ** The world of the shell process *)

(** What [waitpid(pid, &status, WUNTRACED)] stores in [status]: the three
    cases told apart by [WIFEXITED], [WIFSIGNALED] and [WIFSTOPPED]. *)
Inductive WaitStatus : Type :=
| StExited (code : Z)
| StSignaled (sig : Z)
| StStopped (sig : Z).

(** Modelled from the spec: the macros [WIFEXITED] and [WIFSIGNALED] of
    <sys/wait.h>, on the three kinds of status the spec's ProcessExitStatus
    distinguishes. *)
Definition WIFEXITED (st : WaitStatus) : bool :=
  match st with StExited _ => true | _ => false end.

Definition WIFSIGNALED (st : WaitStatus) : bool :=
  match st with StSignaled _ => true | _ => false end.

(** One call of [waitpid]: it stores a status, or fails with an [errno] and
    leaves [status] as it was. *)
Inductive WaitResult : Type :=
| WaitStored (st : WaitStatus)
| WaitFailed (e : Z).

(** Observable actions, oldest first in the trace. *)
Inductive Event : Type :=
| Stdout (s : string)
| Stderr (s : string)
| SysChdir (path : string)
| SysFork
| SysExecvp (file : option string) (argv : TokenVector)
| SysWaitpid (pid : Z) (r : WaitResult).

Record World : Type := mkWorld {
  w_stdin : string;       (* the unread input; empty means end of stream *)
  w_cwd : string;         (* the working directory *)
  w_errno : Z;
  w_trace : list Event
}.

Definition emit (e : Event) (w : World) : World :=
  mkWorld (w_stdin w) (w_cwd w) (w_errno w) (w_trace w ++ [e]).

Definition set_errno (e : Z) (w : World) : World :=
  mkWorld (w_stdin w) (w_cwd w) e (w_trace w).

Definition set_cwd (d : string) (w : World) : World :=
  mkWorld (w_stdin w) d (w_errno w) (w_trace w).

Definition set_stdin (s : string) (w : World) : World :=
  mkWorld s (w_cwd w) (w_errno w) (w_trace w).

(** What [fork()] answers. *)
Inductive ForkResult : Type :=
| InChild                                   (* pid == 0 *)
| ForkFailed (e : Z)                        (* pid < 0, errno = e *)
| InParent (pid : Z) (child : list WaitResult).
    (* pid > 0; [child] lists what the successive calls of waitpid on this
       child answer, after the last of them waitpid does not return *)

Record OS : Type := mkOS {
  os_alloc : Z -> bool;                     (* malloc/realloc of so many bytes succeeds *)
  os_sizeof_ptr : Z;                        (* sizeof(char * ) *)
  os_strerror : Z -> string;
  os_chdir : string -> string -> Z + string;
    (* from a working directory, chdir(path): inl errno, or inr the new
       working directory *)
  os_fork : World -> ForkResult;
  os_execvp : World -> option string -> TokenVector -> option Z
    (* None: the image is replaced; Some errno: execvp returns -1 *)
}.

(** How a call ends. *)
Inductive Outcome (A : Type) : Type :=
| Ret (a : A) (w : World)                   (* the function returns *)
| Exited (code : Z) (w : World)             (* exit(code) *)
| Replaced (w : World)                      (* execvp succeeded *)
| Blocked (w : World)                       (* waitpid never returns *)
| Undefined.                                (* undefined behaviour *)

Arguments Ret {A} a w.
Arguments Exited {A} code w.
Arguments Replaced {A} w.
Arguments Blocked {A} w.
Arguments Undefined {A}.

Definition Shell (A : Type) : Type := World -> Outcome A.

Definition ret {A} (a : A) : Shell A := fun w => Ret a w.

Definition bind {A B} (m : Shell A) (k : A -> Shell B) : Shell B :=
  fun w =>
    match m w with
    | Ret a w' => k a w'
    | Exited code w' => Exited code w'
    | Replaced w' => Replaced w'
    | Blocked w' => Blocked w'
    | Undefined => Undefined
    end.

Notation "x <- m ;; k" := (bind m (fun x => k))
  (at level 61, m at next level, right associativity).
Notation "m ;; k" := (bind m (fun _ => k))
  (at level 61, right associativity).

Section Shell.

Variable os : OS.

(** ** The C library and system calls the shell uses *)

Definition printf (s : string) : Shell unit :=
  fun w => Ret tt (emit (Stdout s) w).

Definition fprintf_stderr (s : string) : Shell unit :=
  fun w => Ret tt (emit (Stderr s) w).

Definition perror (s : string) : Shell unit :=
  fun w => Ret tt (emit (Stderr (s ++ ": " ++ os_strerror os (w_errno w) ++ LF)) w).

Definition exit {A} (code : Z) : Shell A :=
  fun w => Exited code w.

Definition chdir (path : string) : Shell Z :=
  fun w =>
    let w1 := emit (SysChdir path) w in
    match os_chdir os (w_cwd w) path with
    | inl e => Ret (-1) (set_errno e w1)
    | inr d => Ret 0 (set_cwd d w1)
    end.

Definition execvp (file : option string) (argv : TokenVector) : Shell Z :=
  fun w =>
    let w1 := emit (SysExecvp file argv) w in
    match os_execvp os w file argv with
    | None => Replaced w1
    | Some e => Ret (-1) (set_errno e w1)
    end.

(** ** Builtins *)

Definition builtin_str : list string := ["cd"; "help"; "exit"].

Definition csh_num_builtins : nat := List.length builtin_str.

Definition csh_cd (args : TokenVector) : Shell Z :=
  match args_at args 1 with
  | None =>
      fprintf_stderr ("lsh: cd: missing argument" ++ LF) ;;
      ret 1
  | Some dir =>
      rc <- chdir dir ;;
      (if negb (rc =? 0) then perror "lsh" else ret tt) ;;
      ret 1
  end.

(** The loop [for (i = 0; i < csh_num_builtins(); i++)] of [csh_help], with
    [n] iterations left. *)
Fixpoint help_loop (n : nat) (i : nat) : Shell unit :=
  match n with
  | O => ret tt
  | S n' =>
      printf ("  " ++ nth i builtin_str "" ++ LF) ;;
      help_loop n' (S i)
  end.

Definition csh_help (args : TokenVector) : Shell Z :=
  printf ("Ishan Leung's C Shell" ++ LF) ;;
  printf ("Type program names and arguments, and press the enter key." ++ LF) ;;
  printf ("The following are built-in commands:" ++ LF) ;;
  help_loop csh_num_builtins 0 ;;
  printf ("Use the man command for info on other programs. " ++ LF) ;;
  ret 1.

Definition csh_exit (args : TokenVector) : Shell Z :=
  ret 0.

Definition builtin_func : list (TokenVector -> Shell Z) :=
  [csh_cd; csh_help; csh_exit].

(** ** Launching a program *)

(** The parent's [do { waitpid(pid, &status, WUNTRACED); } while (...)].
    [status] is [None] as long as nothing was stored in it; [child] is what
    the calls of waitpid that are still to come answer. *)
Fixpoint wait_loop (pid : Z) (child : list WaitResult)
    (status : option WaitStatus) (w : World) : Outcome unit :=
  match child with
  | [] => Blocked w
  | r :: child' =>
      let w1 := emit (SysWaitpid pid r) w in
      let w2 := match r with WaitStored _ => w1 | WaitFailed e => set_errno e w1 end in
      let status := match r with WaitStored st => Some st | WaitFailed _ => status end in
      match status with
      | None => Undefined
      | Some st =>
          if negb (WIFEXITED st) && negb (WIFSIGNALED st)
          then wait_loop pid child' status w2
          else Ret tt w2
      end
  end.

Definition csh_launch (args : TokenVector) : Shell Z :=
  fun w =>
    let w1 := emit SysFork w in
    match os_fork os w with
    | InChild =>
        (rc <- execvp (args_at args 0) args ;;
         (if rc =? -1 then perror "lsh" else ret tt) ;;
         exit EXIT_FAILURE) w1
    | ForkFailed e =>
        (perror "lsh" ;;
         ret 1) (set_errno e w1)
    | InParent pid child =>
        (wait_loop pid child None ;;
         ret 1) w1
    end.

(** ** Dispatch *)

(** The loop [for (i = 0; i < csh_num_builtins(); i++)] of [csh_execute]
    with [n] iterations left, and the call of [csh_launch] after it. *)
Fixpoint execute_loop (n : nat) (i : nat) (arg0 : string)
    (args : TokenVector) : Shell Z :=
  match n with
  | O => csh_launch args
  | S n' =>
      if strcmp arg0 (nth i builtin_str "") =? 0
      then nth i builtin_func (fun _ _ => Undefined) args
      else execute_loop n' (S i) arg0 args
  end.

Definition csh_execute (args : TokenVector) : Shell Z :=
  match args_at args 0 with
  | None => ret 1
  | Some arg0 => execute_loop csh_num_builtins 0 arg0 args
  end.

(** ** Reading a line *)

Definition allocation_error {A} : Shell A :=
  fprintf_stderr ("lsh: allocation error" ++ LF) ;;
  exit EXIT_FAILURE.

(** The [while (1)] of [csh_read_line] (the branch compiled by default).
    [input] is the unread part of standard input, [buffer] the characters
    stored so far ([buffer[0 .. position-1]]). *)
Fixpoint read_line_loop (input : string) (buffer : string)
    (position bufsize : Z) (w : World) : Outcome string :=
  match input with
  | EmptyString =>
      (* c == EOF *)
      exit EXIT_SUCCESS w
  | String c input' =>
      let w := set_stdin input' w in
      if Ascii.eqb c newline then
        (* buffer[position] = 0 *)
        Ret buffer w
      else
        let buffer := buffer ++ String c EmptyString in
        let position := position + 1 in
        if position >=? bufsize then
          if bufsize + CSH_RL_BUFSIZE >? INT_MAX then Undefined
          else
            let bufsize := bufsize + CSH_RL_BUFSIZE in
            if os_alloc os bufsize
            then read_line_loop input' buffer position bufsize w
            else allocation_error w
        else read_line_loop input' buffer position bufsize w
  end.

Definition csh_read_line : Shell string :=
  fun w =>
    if os_alloc os (1 * CSH_RL_BUFSIZE)
    then read_line_loop (w_stdin w) EmptyString 0 CSH_RL_BUFSIZE w
    else allocation_error w.

(** [getline]: the characters up to and including the next newline, or up
    to the end of the stream; [None] when the stream has ended before any
    character. *)
Fixpoint getline_chars (input : string) : string * string :=
  match input with
  | EmptyString => (EmptyString, EmptyString)
  | String c input' =>
      if Ascii.eqb c newline then (String c EmptyString, input')
      else let (l, r) := getline_chars input' in (String c l, r)
  end.

(** [csh_read_line] as compiled with [CSH_USE_STD_GETLINE]; [getline] is
    taken not to fail for want of memory. *)
Definition csh_read_line_getline : Shell string :=
  fun w =>
    match w_stdin w with
    | EmptyString =>
        (* getline returns -1 and feof(stdin) holds *)
        exit EXIT_SUCCESS w
    | String _ _ =>
        let (line, rest) := getline_chars (w_stdin w) in
        Ret line (set_stdin rest w)
    end.

(** ** Splitting a line *)

(** [s + strspn(s, delim)] *)
Fixpoint skip_delims (delim s : string) : string :=
  match s with
  | EmptyString => EmptyString
  | String c s' => if mem_char c delim then skip_delims delim s' else s
  end.

(** From the start of a token: the token, which ends before the first
    delimiter or at the end of the string, and the text after that
    delimiter. *)
Fixpoint take_token (delim s : string) : string * string :=
  match s with
  | EmptyString => (EmptyString, EmptyString)
  | String c s' =>
      if mem_char c delim then (EmptyString, s')
      else let (t, r) := take_token delim s' in (String c t, r)
  end.

(** [strtok(s, delim)]: [save] is the text strtok kept from the call before;
    the result is the token (or NULL) and the text kept for the next call. *)
Definition strtok (s : option string) (delim : string) (save : string)
    : option string * string :=
  let start := match s with Some l => cstr l | None => save end in
  match skip_delims delim start with
  | EmptyString => (None, EmptyString)
  | String c r => let (t, rest) := take_token delim (String c r) in (Some t, rest)
  end.

(** [tokens[position] = v], on the slots written so far. *)
Definition store (tokens : TokenVector) (position : Z) (v : option string)
    : TokenVector :=
  (firstn (Z.to_nat position) tokens ++ [v])%list.

Definition loop_measure (token : option string) (save : string) : nat :=
  match token with
  | None => O
  | Some _ => S (String.length save)
  end.

Lemma take_token_length delim s :
  (String.length (snd (take_token delim s)) <= String.length s)%nat.
Proof.
  induction s as [|c s IH]; simpl; [lia|].
  destruct (mem_char c delim); simpl; [lia|].
  destruct (take_token delim s); simpl in *; lia.
Qed.

Lemma skip_delims_length delim s :
  (String.length (skip_delims delim s) <= String.length s)%nat.
Proof.
  induction s as [|c s IH]; simpl; [lia|].
  destruct (mem_char c delim); simpl; lia.
Qed.

Lemma strtok_measure delim save :
  (loop_measure (fst (strtok None delim save)) (snd (strtok None delim save))
   < S (String.length save))%nat.
Proof.
  unfold strtok.
  pose proof (skip_delims_length delim save) as Hs.
  destruct (skip_delims delim save) as [|c r] eqn:E; simpl; [lia|].
  pose proof (take_token_length delim r) as Ht.
  destruct (mem_char c delim); simpl.
  - simpl in Hs. lia.
  - destruct (take_token delim r); simpl in *. lia.
Qed.

(** The [while (token != NULL)] of [csh_split_line] and the two statements
    after it. *)
Equations? split_loop (token : option string) (save : string)
    (tokens : TokenVector) (position bufsize : Z) (w : World)
    : Outcome TokenVector by wf (loop_measure token save) lt :=
split_loop None save tokens position bufsize w :=
  Ret (store tokens position None) w;
split_loop (Some t) save tokens position bufsize w :=
  let tokens := store tokens position (Some t) in
  let position := position + 1 in
  if position >=? bufsize then
    if bufsize + CSH_TOK_BUFSIZE >? INT_MAX then Undefined
    else
      let bufsize := bufsize + CSH_TOK_BUFSIZE in
      if os_alloc os (bufsize * os_sizeof_ptr os)
      then split_loop (fst (strtok None CSH_TOK_DELIM save))
                      (snd (strtok None CSH_TOK_DELIM save))
                      tokens position bufsize w
      else allocation_error w
  else split_loop (fst (strtok None CSH_TOK_DELIM save))
                  (snd (strtok None CSH_TOK_DELIM save))
                  tokens position bufsize w.
Proof.
  all: apply strtok_measure.
Qed.

Definition csh_split_line (line : string) : Shell TokenVector :=
  fun w =>
    if os_alloc os (CSH_TOK_BUFSIZE * os_sizeof_ptr os) then
      let first := strtok (Some line) CSH_TOK_DELIM EmptyString in
      split_loop (fst first) (snd first) [] 0 CSH_TOK_BUFSIZE w
    else allocation_error w.

End Shell.


(** Several [help] commands in a row, each with its own arguments. *)
Fixpoint repeat_help (argss : list TokenVector) : Shell unit :=
  match argss with
  | [] => ret tt
  | args :: argss' => csh_help args ;; repeat_help argss'
  end.

(** The text [help] is expected to print, one entry per call of printf. *)
Definition help_text : list Event :=
  [ Stdout ("Ishan Leung's C Shell" ++ LF);
    Stdout ("Type program names and arguments, and press the enter key." ++ LF);
    Stdout ("The following are built-in commands:" ++ LF);
    Stdout ("  cd" ++ LF);
    Stdout ("  help" ++ LF);
    Stdout ("  exit" ++ LF);
    Stdout ("Use the man command for info on other programs. " ++ LF) ].

Definition emit_all (evs : list Event) (w : World) : World :=
  mkWorld (w_stdin w) (w_cwd w) (w_errno w) (w_trace w ++ evs).

(** [cd] fails: its argument is missing, or the system refuses the change
    of directory. *)
Definition cd_fails (os : OS) (args : TokenVector) (w : World) : Prop :=
  args_at args 1 = None \/
  exists dir e, args_at args 1 = Some dir /\ os_chdir os (w_cwd w) dir = inl e.

(** The status says that the child is gone: it exited or a signal killed
    it. *)
Definition terminal (st : WaitStatus) : bool :=
  WIFEXITED st || WIFSIGNALED st.

(** The content of [status] after the calls of waitpid answered [rs],
    starting from [status]. *)
Fixpoint status_after (rs : list WaitResult) (status : option WaitStatus)
    : option WaitStatus :=
  match rs with
  | [] => status
  | WaitStored st :: rs' => status_after rs' (Some st)
  | WaitFailed _ :: rs' => status_after rs' status
  end.

Definition is_delim (c : ascii) : bool := mem_char c CSH_TOK_DELIM.

(** A token as the claims want it: not empty, and free of delimiters. *)
Definition good_token (t : string) : Prop :=
  t <> EmptyString /\ all_chars (fun c => negb (is_delim c)) t = true.

(** ** The loop *)

(** One pass through the body of the do-while of [csh_loop], up to the
    value of [status]; the two calls of free leave no trace. *)
Definition csh_loop_body (os : OS) : Shell Z :=
  printf "> " ;;
  line <- csh_read_line os ;;
  args <- csh_split_line os line ;;
  status <- csh_execute os args ;;
  ret status.

(** [csh_loop], cut after [n] passes: [None] when the loop asks for one
    pass more. *)
Fixpoint csh_loop (os : OS) (n : nat) (w : World) : option (Outcome unit) :=
  match n with
  | O => None
  | S n' =>
      match csh_loop_body os w with
      | Ret status w' =>
          if status =? 0 then Some (Ret tt w') else csh_loop os n' w'
      | Exited code w' => Some (Exited code w')
      | Replaced w' => Some (Replaced w')
      | Blocked w' => Some (Blocked w')
      | Undefined => Some Undefined
      end
  end.

(** [main]: the loop, then [return EXIT_SUCCESS]; its arguments are not
    read. *)
Definition main (os : OS) (n : nat) (argc : Z) (argv : TokenVector)
    (w : World) : option (Outcome Z) :=
  match csh_loop os n w with
  | None => None
  | Some (Ret _ w') => Some (Ret EXIT_SUCCESS w')
  | Some (Exited code w') => Some (Exited code w')
  | Some (Replaced w') => Some (Replaced w')
  | Some (Blocked w') => Some (Blocked w')
  | Some Undefined => Some Undefined
  end.

(** ** Words to state properties of the tokenizer *)

Definition nul_free (s : string) : bool :=
  all_chars (fun c => negb (Ascii.eqb c NUL)) s.

(** A line read in one sweep: [cur] is the run of characters that are not
    delimiters seen since the last delimiter. *)
Definition push_token (cur : string) (l : list string) : list string :=
  match cur with
  | EmptyString => l
  | String _ _ => cur :: l
  end.

Fixpoint scan_tokens (s cur : string) : list string :=
  match s with
  | EmptyString => push_token cur []
  | String c s' =>
      if is_delim c then push_token cur (scan_tokens s' EmptyString)
      else scan_tokens s' (cur ++ String c EmptyString)
  end.

(** The line without its delimiters. *)
Fixpoint remove_delims (s : string) : string :=
  match s with
  | EmptyString => EmptyString
  | String c s' => if is_delim c then remove_delims s' else String c (remove_delims s')
  end.

(** The tokens the loop is still to store: the one in hand and those of the
    text strtok kept. *)
Definition loop_tokens (token : option string) (save : string) : list string :=
  match token with
  | None => []
  | Some t => t :: scan_tokens save EmptyString
  end.

(** The line starts, after delimiters if any, with [word], and [word] ends
    there. *)
Definition first_word (line word : string) : Prop :=
  exists d tail,
    line = d ++ word ++ tail /\
    all_chars is_delim d = true /\
    (tail = EmptyString \/ exists c t, tail = String c t /\ is_delim c = true).

(** ** Example environments *)

Definition ENOENT : Z := 2.
Definition EAGAIN : Z := 11.

Definition demo_strerror (e : Z) : string :=
  if e =? ENOENT then "No such file or directory"
  else if e =? EAGAIN then "Resource temporarily unavailable"
  else "Unknown error".

(** Only [/tmp] exists; every allocation succeeds; a forked child is stopped
    once and then exits with status 0. *)
Definition demo_os : OS :=
  mkOS (fun _ => true) 8 demo_strerror
       (fun _ path => if String.eqb path "/tmp" then inr "/tmp" else inl ENOENT)
       (fun _ => InParent 42 [WaitStored (StStopped 19); WaitStored (StExited 0)])
       (fun _ _ _ => Some ENOENT).

(** As [demo_os], but no process can be created. *)
Definition nofork_os : OS :=
  mkOS (fun _ => true) 8 demo_strerror
       (fun _ path => if String.eqb path "/tmp" then inr "/tmp" else inl ENOENT)
       (fun _ => ForkFailed EAGAIN)
       (fun _ _ _ => Some ENOENT).

(** The process is the forked child, and no program can be executed. *)
Definition child_os : OS :=
  mkOS (fun _ => true) 8 demo_strerror
       (fun _ _ => inl ENOENT)
       (fun _ => InChild)
       (fun _ _ _ => Some ENOENT).

(** A forked child is stopped twice and heard of no more. *)
Definition stopped_os : OS :=
  mkOS (fun _ => true) 8 demo_strerror
       (fun _ _ => inl ENOENT)
       (fun _ => InParent 7 [WaitStored (StStopped 19); WaitStored (StStopped 20)])
       (fun _ _ _ => Some ENOENT).

(** No memory at all. *)
Definition nomem_os : OS :=
  mkOS (fun _ => false) 8 demo_strerror
       (fun _ _ => inl ENOENT)
       (fun _ => ForkFailed EAGAIN)
       (fun _ _ _ => Some ENOENT).

Definition world0 (input : string) : World :=
  mkWorld input "/home" 0 [].

(** * Properties *)

(** ** The examples of the specification *)

Example split_ls_la_tmp :
  csh_split_line demo_os "ls -la /tmp" (world0 "")
  = Ret [Some "ls"; Some "-la"; Some "/tmp"; None] (world0 "").
Proof. reflexivity. Qed.

Example split_without_delimiter :
  csh_split_line demo_os "pwd" (world0 "") = Ret [Some "pwd"; None] (world0 "").
Proof. reflexivity. Qed.

Example cd_nonexistent :
  csh_execute demo_os [Some "cd"; Some "/nonexistent-path-xyz"; None] (world0 "")
  = Ret 1 (mkWorld "" "/home" ENOENT
             [SysChdir "/nonexistent-path-xyz";
              Stderr ("lsh: No such file or directory" ++ LF)]).
Proof. reflexivity. Qed.

Example cd_tmp :
  csh_execute demo_os [Some "cd"; Some "/tmp"; None] (world0 "")
  = Ret 1 (mkWorld "" "/tmp" 0 [SysChdir "/tmp"]).
Proof. reflexivity. Qed.

Example launch_true :
  csh_execute demo_os [Some "true"; None] (world0 "")
  = Ret 1 (mkWorld "" "/home" 0
             [SysFork; SysWaitpid 42 (WaitStored (StStopped 19));
              SysWaitpid 42 (WaitStored (StExited 0))]).
Proof. reflexivity. Qed.

Example read_one_line :
  csh_read_line demo_os (world0 ("ls -la" ++ LF ++ "exit" ++ LF))
  = Ret "ls -la" (world0 ("exit" ++ LF)).
Proof. reflexivity. Qed.

Example read_at_end_of_input :
  csh_read_line demo_os (world0 "") = Exited EXIT_SUCCESS (world0 "").
Proof. reflexivity. Qed.

(** ** Strings *)

Lemma ascii_diff_nonzero c d :
  Ascii.eqb c d = false ->
  Z.of_nat (nat_of_ascii c) - Z.of_nat (nat_of_ascii d) <> 0.
Proof.
  intros Hcd Heq.
  apply Ascii.eqb_neq in Hcd. apply Hcd.
  rewrite <- (ascii_nat_embedding c), <- (ascii_nat_embedding d).
  f_equal. lia.
Qed.

Lemma nat_of_ascii_zero c : nat_of_ascii c = 0%nat -> c = NUL.
Proof.
  intros H. rewrite <- (ascii_nat_embedding c), H. reflexivity.
Qed.

(** On strings without an embedded NUL, [strcmp] answers 0 exactly on equal
    strings. *)
Lemma strcmp_zero_iff a b :
  all_chars (fun c => negb (Ascii.eqb c NUL)) a = true ->
  all_chars (fun c => negb (Ascii.eqb c NUL)) b = true ->
  strcmp a b = 0 <-> a = b.
Proof.
  revert b. induction a as [|c a IH]; intros [|d b] Ha Hb; simpl in *.
  - tauto.
  - apply andb_prop in Hb as [Hd _]. split; [|discriminate].
    intros H. assert (nat_of_ascii d = 0%nat) as H0 by lia.
    apply nat_of_ascii_zero in H0. subst d. discriminate.
  - apply andb_prop in Ha as [Hc _]. split; [|discriminate].
    intros H. assert (nat_of_ascii c = 0%nat) as H0 by lia.
    apply nat_of_ascii_zero in H0. subst c. discriminate.
  - apply andb_prop in Ha as [_ Ha]. apply andb_prop in Hb as [_ Hb].
    destruct (Ascii.eqb c d) eqn:E.
    + apply Ascii.eqb_eq in E. subst d. rewrite (IH b Ha Hb).
      split; [intros ->; reflexivity | intros H; injection H; auto].
    + split.
      * intros H. exfalso. exact (ascii_diff_nonzero c d E H).
      * intros H. injection H as -> _. rewrite Ascii.eqb_refl in E. discriminate.
Qed.

(** ** Builtins *)

Lemma csh_cd_returns_1 os args w : exists w', csh_cd os args w = Ret 1 w'.
Proof.
  unfold csh_cd, bind, chdir, fprintf_stderr, perror, ret.
  destruct (args_at args 1) as [dir|]; [|eauto].
  destruct (os_chdir os (w_cwd w) dir); simpl; eauto.
Qed.

(** C3: a failing [cd] (argument missing, or chdir refused by the system)
    writes an error message to standard error, returns 1 (continue) and
    leaves the working directory as it was; and [cd] returns 1 whatever
    happens, so it never ends the loop. *)
Theorem cd_failure_reported_and_continues os args w :
  cd_fails os args w ->
  (exists w',
      csh_cd os args w = Ret 1 w' /\
      w_cwd w' = w_cwd w /\
      (w_trace w' = (w_trace w ++ [Stderr ("lsh: cd: missing argument" ++ LF)])%list \/
       exists dir e,
         w_trace w' = (w_trace w ++ [SysChdir dir;
                                     Stderr ("lsh: " ++ os_strerror os e ++ LF)])%list))
  /\ (forall args0 w0, exists w', csh_cd os args0 w0 = Ret 1 w').
Proof.
  intros Hfail. split; [|intros; apply csh_cd_returns_1].
  unfold csh_cd, bind, chdir, fprintf_stderr, perror, ret.
  destruct Hfail as [Hnone | (dir & e & Hdir & Hch)].
  - rewrite Hnone. eexists. repeat split. left. reflexivity.
  - rewrite Hdir, Hch. simpl. eexists. repeat split.
    right. exists dir, e. simpl. rewrite <- app_assoc. reflexivity.
Qed.

Lemma cd_failure_witness :
  cd_fails demo_os [Some "cd"; Some "/nonexistent-path-xyz"; None] (world0 "") /\
  exists w',
    csh_cd demo_os [Some "cd"; Some "/nonexistent-path-xyz"; None] (world0 "") = Ret 1 w' /\
    w_cwd w' = "/home".
Proof.
  assert (H : cd_fails demo_os [Some "cd"; Some "/nonexistent-path-xyz"; None] (world0 "")).
  { right. exists "/nonexistent-path-xyz", ENOENT. split; reflexivity. }
  split; [exact H|].
  destruct (cd_failure_reported_and_continues _ _ _ H) as [(w' & Hr & Hc & _) _].
  exists w'. split; [exact Hr | exact Hc].
Defined.

(** C9: what [cd] does (the attempt to change directory, the error output,
    the value returned) is a function of [args[1]] alone: two argument
    vectors with the same second entry behave alike, and with a directory
    the system accepts nothing is reported, whatever arguments follow. *)
Theorem cd_depends_only_on_second_argument os args args' w :
  args_at args 1 = args_at args' 1 ->
  csh_cd os args w = csh_cd os args' w /\
  (forall dir d, args_at args 1 = Some dir ->
     os_chdir os (w_cwd w) dir = inr d ->
     csh_cd os args w = Ret 1 (set_cwd d (emit (SysChdir dir) w))).
Proof.
  intros H. split.
  - unfold csh_cd. rewrite H. reflexivity.
  - intros dir d Hdir Hch.
    unfold csh_cd, bind, chdir, ret. rewrite Hdir, Hch. reflexivity.
Qed.

Lemma cd_extra_arguments_witness :
  csh_cd demo_os [Some "cd"; Some "/tmp"; Some "extra"; Some "more"; None] (world0 "")
  = csh_cd demo_os [Some "cd"; Some "/tmp"; None] (world0 "").
Proof.
  refine (proj1 (cd_depends_only_on_second_argument demo_os
                   [Some "cd"; Some "/tmp"; Some "extra"; Some "more"; None]
                   [Some "cd"; Some "/tmp"; None] (world0 "") _)).
  reflexivity.
Defined.

Lemma help_loop_prints w :
  help_loop csh_num_builtins 0 w
  = Ret tt (emit_all [Stdout ("  cd" ++ LF); Stdout ("  help" ++ LF);
                      Stdout ("  exit" ++ LF)] w).
Proof.
  unfold csh_num_builtins, builtin_str, emit_all. simpl.
  unfold bind, printf, ret, emit. simpl.
  repeat rewrite <- app_assoc. reflexivity.
Qed.

Lemma csh_help_prints args w :
  csh_help args w = Ret 1 (emit_all help_text w).
Proof.
  unfold csh_help, bind at 1 2 3, printf at 1 2 3.
  unfold bind at 1. rewrite help_loop_prints.
  unfold bind, printf, ret, emit, emit_all, help_text. simpl.
  repeat rewrite <- app_assoc. reflexivity.
Qed.

(** C8: [help] ignores its arguments and the state it is called in: every
    call prints the same banner, the three names cd, help, exit and the
    closing line, and returns 1; calls in a row print that text once each. *)
Theorem help_prints_fixed_text :
  (forall args w, csh_help args w = Ret 1 (emit_all help_text w)) /\
  (forall argss w,
      repeat_help argss w
      = Ret tt (emit_all (List.concat (map (fun _ => help_text) argss)) w)) /\
  help_text =
    [ Stdout ("Ishan Leung's C Shell" ++ LF);
      Stdout ("Type program names and arguments, and press the enter key." ++ LF);
      Stdout ("The following are built-in commands:" ++ LF);
      Stdout ("  " ++ "cd" ++ LF);
      Stdout ("  " ++ "help" ++ LF);
      Stdout ("  " ++ "exit" ++ LF);
      Stdout ("Use the man command for info on other programs. " ++ LF) ].
Proof.
  split; [|split].
  - apply csh_help_prints.
  - induction argss as [|args argss IH]; intros w.
    + simpl. unfold ret, emit_all. rewrite app_nil_r. destruct w; reflexivity.
    + simpl. unfold bind. rewrite csh_help_prints, IH.
      unfold emit_all. simpl. rewrite <- app_assoc. reflexivity.
  - reflexivity.
Qed.

(** ** Dispatch *)

(** C2: when [args[0]] is the string exit, [csh_execute] returns 0 (the
    terminate signal) whatever arguments follow, and does nothing else. *)
Theorem exit_dispatch_terminates os args w :
  args_at args 0 = Some "exit" ->
  csh_execute os args w = Ret 0 w.
Proof.
  intros H. unfold csh_execute. rewrite H. reflexivity.
Qed.

Lemma exit_dispatch_witness :
  csh_execute demo_os [Some "exit"; Some "7"; None] (world0 "") = Ret 0 (world0 "").
Proof.
  apply (exit_dispatch_terminates demo_os [Some "exit"; Some "7"; None] (world0 "")).
  reflexivity.
Defined.

(** C4: when [args[0]] is NULL (an empty command line), [csh_execute]
    returns 1 at once: the world is left as it was, so nothing is printed,
    no directory is changed and no process is created. *)
Theorem empty_command_continues os args w :
  args_at args 0 = None ->
  csh_execute os args w = Ret 1 w.
Proof.
  intros H. unfold csh_execute. rewrite H. reflexivity.
Qed.

Lemma empty_command_witness :
  csh_execute nofork_os [None] (world0 "") = Ret 1 (world0 "").
Proof.
  apply (empty_command_continues nofork_os [None] (world0 "")).
  reflexivity.
Defined.

(** ** Launching a program *)

Lemma not_terminal_stopped st :
  negb (WIFEXITED st) && negb (WIFSIGNALED st) = true ->
  exists sig, st = StStopped sig.
Proof.
  destruct st as [code|sig|sig]; simpl; try discriminate. eauto.
Qed.

Lemma wait_loop_returns pid child :
  forall status w w',
    wait_loop pid child status w = Ret tt w' ->
    exists n,
      (n < List.length child)%nat /\
      w_trace w' = (w_trace w ++ map (SysWaitpid pid) (firstn (S n) child))%list /\
      (exists st, status_after (firstn (S n) child) status = Some st /\
                  terminal st = true) /\
      (forall m, (m < n)%nat ->
         exists sig, status_after (firstn (S m) child) status = Some (StStopped sig)).
Proof.
  induction child as [|r child IH]; intros status w w' H; [discriminate|].
  cbn [wait_loop] in H.
  set (w2 := match r with
             | WaitStored _ => emit (SysWaitpid pid r) w
             | WaitFailed e => set_errno e (emit (SysWaitpid pid r) w)
             end) in H.
  assert (Htr : w_trace w2 = (w_trace w ++ [SysWaitpid pid r])%list).
  { subst w2. destruct r; reflexivity. }
  set (status' := match r with
                  | WaitStored st => Some st
                  | WaitFailed _ => status
                  end) in H.
  assert (Hst : forall rs, status_after (r :: rs) status = status_after rs status').
  { intros rs. subst status'. destruct r; reflexivity. }
  destruct status' as [st|] eqn:E; [|discriminate].
  destruct (negb (WIFEXITED st) && negb (WIFSIGNALED st)) eqn:Hcont.
  - apply IH in H. destruct H as (n & Hn & Ht & (st' & Hs & Hterm) & Hstops).
    exists (S n). split; [simpl; lia|]. split; [|split].
    + rewrite Ht, Htr, <- app_assoc. reflexivity.
    + exists st'. change (firstn (S (S n)) (r :: child)) with (r :: firstn (S n) child).
      rewrite Hst. auto.
    + intros [|m] Hm.
      * change (firstn 1 (r :: child)) with (r :: firstn 0 child).
        rewrite Hst. simpl. apply not_terminal_stopped in Hcont.
        destruct Hcont as [sig ->]. eauto.
      * change (firstn (S (S m)) (r :: child)) with (r :: firstn (S m) child).
        rewrite Hst. apply Hstops. lia.
  - injection H as <-. exists 0%nat. split; [simpl; lia|]. split; [|split].
    + rewrite Htr. reflexivity.
    + exists st. change (firstn 1 (r :: child)) with (r :: firstn 0 child).
      rewrite Hst. split; [reflexivity|].
      unfold terminal. destruct (WIFEXITED st), (WIFSIGNALED st); simpl in *; congruence.
    + intros m Hm. lia.
Qed.

Lemma wait_loop_reaches_terminal pid stops st rest :
  forallb (fun s => negb (terminal s)) stops = true ->
  terminal st = true ->
  forall status w,
    exists w', wait_loop pid (map WaitStored stops ++ WaitStored st :: rest) status w
               = Ret tt w'.
Proof.
  intros Hstops Hterm. induction stops as [|s stops IH]; intros status w.
  - cbn [map app wait_loop].
    unfold terminal in Hterm.
    destruct (WIFEXITED st), (WIFSIGNALED st); simpl in *; try discriminate; eauto.
  - simpl in Hstops. apply andb_prop in Hstops as [Hs Hstops].
    cbn [map app wait_loop].
    unfold terminal in Hs.
    destruct (WIFEXITED s), (WIFSIGNALED s); simpl in *; try discriminate.
    apply IH. exact Hstops.
Qed.

Lemma wait_loop_never_exits pid child :
  forall status w code w', wait_loop pid child status w <> Exited code w'.
Proof.
  induction child as [|r child IH]; intros status w code w'; [discriminate|].
  cbn [wait_loop].
  destruct (match r with WaitStored st => Some st | WaitFailed _ => status end)
    as [st|]; [|discriminate].
  destruct (negb (WIFEXITED st) && negb (WIFSIGNALED st)); [apply IH|discriminate].
Qed.

(** In the child, [csh_launch] does not return: the image is replaced, or
    the child exits with a failure status. *)
Lemma csh_launch_child_never_returns os args w :
  os_fork os w = InChild ->
  (exists w', csh_launch os args w = Replaced w') \/
  (exists w', csh_launch os args w = Exited EXIT_FAILURE w').
Proof.
  intros Hf. unfold csh_launch. rewrite Hf.
  unfold bind, execvp, perror, exit, ret.
  destruct (os_execvp os (emit SysFork w) (args_at args 0) args); simpl; eauto.
Qed.

Lemma csh_launch_returns_1 os args w v w' :
  csh_launch os args w = Ret v w' -> v = 1.
Proof.
  unfold csh_launch.
  destruct (os_fork os w) as [|e|pid child].
  - unfold bind, execvp, perror, exit, ret.
    destruct (os_execvp os (emit SysFork w) (args_at args 0) args); simpl; discriminate.
  - unfold bind, perror, ret. intros H. inversion H. reflexivity.
  - unfold bind, ret.
    destruct (wait_loop pid child None (emit SysFork w)); try discriminate.
    intros H. inversion H. reflexivity.
Qed.

(** C6: in the shell process (fork did not answer as it does in the child)
    [csh_launch] never exits and every value it returns is 1; when fork
    fails it prints the system's error and returns 1 without a single call
    of waitpid; when fork succeeds and the child, after any number of stops,
    exits or is killed, it returns 1. *)
Theorem launch_returns_continue os args w :
  os_fork os w <> InChild ->
  (forall v w', csh_launch os args w = Ret v w' -> v = 1) /\
  (forall code w', csh_launch os args w <> Exited code w') /\
  (forall e, os_fork os w = ForkFailed e ->
     csh_launch os args w
     = Ret 1 (emit (Stderr ("lsh: " ++ os_strerror os e ++ LF))
                   (set_errno e (emit SysFork w)))) /\
  (forall pid stops st rest,
     os_fork os w = InParent pid (map WaitStored stops ++ WaitStored st :: rest) ->
     forallb (fun s => negb (terminal s)) stops = true ->
     terminal st = true ->
     exists w', csh_launch os args w = Ret 1 w').
Proof.
  intros Hshell. split; [|split; [|split]].
  - intros v w'. apply csh_launch_returns_1.
  - intros code w'. unfold csh_launch.
    destruct (os_fork os w) as [|e|pid child]; [congruence| |].
    + unfold bind, perror, ret. discriminate.
    + unfold bind, ret.
      pose proof (wait_loop_never_exits pid child None (emit SysFork w)) as Hne.
      destruct (wait_loop pid child None (emit SysFork w)) as [| c1 w1 | | |];
        try discriminate.
      intros _. apply (Hne c1 w1). reflexivity.
  - intros e Hf. unfold csh_launch. rewrite Hf. reflexivity.
  - intros pid stops st rest Hf Hstops Hterm.
    unfold csh_launch. rewrite Hf. unfold bind, ret.
    destruct (wait_loop_reaches_terminal pid stops st rest Hstops Hterm
                None (emit SysFork w)) as [w' ->].
    eauto.
Qed.

Lemma launch_fork_failure_witness :
  csh_launch nofork_os [Some "ls"; None] (world0 "")
  = Ret 1 (mkWorld "" "/home" EAGAIN
             [SysFork; Stderr ("lsh: Resource temporarily unavailable" ++ LF)]).
Proof.
  assert (Hshell : os_fork nofork_os (world0 "") <> InChild) by discriminate.
  exact (proj1 (proj2 (proj2
    (launch_returns_continue nofork_os [Some "ls"; None] (world0 "") Hshell)))
    EAGAIN eq_refl).
Defined.

(** C7: after a successful fork, when [csh_launch] returns it has called
    waitpid some [n+1] times, [status] then holds an exit or a kill by a
    signal, and after each of the [n] calls before [status] held a stop: a
    stop is always followed by another call of waitpid, never by the
    return. *)
Theorem launch_waits_past_stops os args w pid child v w' :
  os_fork os w = InParent pid child ->
  csh_launch os args w = Ret v w' ->
  exists n,
    (n < List.length child)%nat /\
    w_trace w' = (w_trace w ++ SysFork :: map (SysWaitpid pid) (firstn (S n) child))%list /\
    (exists st, status_after (firstn (S n) child) None = Some st /\
                (WIFEXITED st = true \/ WIFSIGNALED st = true)) /\
    (forall m, (m < n)%nat ->
       exists sig, status_after (firstn (S m) child) None = Some (StStopped sig)).
Proof.
  intros Hf H. unfold csh_launch in H. rewrite Hf in H. unfold bind, ret in H.
  destruct (wait_loop pid child None (emit SysFork w)) as [[] w1| | | |] eqn:Hw;
    try discriminate.
  injection H as _ <-.
  apply wait_loop_returns in Hw.
  destruct Hw as (n & Hn & Ht & (st & Hs & Hterm) & Hstops).
  exists n. split; [exact Hn|]. split; [|split].
  - rewrite Ht. simpl. rewrite <- app_assoc. reflexivity.
  - exists st. split; [exact Hs|]. apply orb_prop. exact Hterm.
  - exact Hstops.
Qed.

Lemma launch_waits_past_stops_witness :
  exists n,
    (n < 2)%nat /\
    (exists st, status_after (firstn (S n) [WaitStored (StStopped 19);
                                            WaitStored (StExited 0)]) None = Some st /\
                (WIFEXITED st = true \/ WIFSIGNALED st = true)) /\
    (forall m, (m < n)%nat ->
       exists sig, status_after (firstn (S m) [WaitStored (StStopped 19);
                                               WaitStored (StExited 0)]) None
                   = Some (StStopped sig)).
Proof.
  destruct (launch_waits_past_stops demo_os [Some "ls"; None] (world0 "") 42
              [WaitStored (StStopped 19); WaitStored (StExited 0)] 1
              (mkWorld "" "/home" 0
                 [SysFork; SysWaitpid 42 (WaitStored (StStopped 19));
                  SysWaitpid 42 (WaitStored (StExited 0))])
              eq_refl eq_refl) as (n & Hn & _ & Hterm & Hstops).
  exists n. split; [exact Hn|]. split; [exact Hterm | exact Hstops].
Defined.

(** ** Reading a line *)

Lemma read_line_loop_needs_newline os input :
  all_chars (fun c => negb (Ascii.eqb c newline)) input = true ->
  forall buffer position bufsize w line w',
    read_line_loop os input buffer position bufsize w <> Ret line w'.
Proof.
  induction input as [|c input IH]; intros Hall buffer position bufsize w line w'.
  - discriminate.
  - simpl in Hall. apply andb_prop in Hall as [Hc Hall].
    cbn [read_line_loop]. apply negb_true_iff in Hc. rewrite Hc.
    destruct (position + 1 >=? bufsize).
    + destruct (bufsize + CSH_RL_BUFSIZE >? INT_MAX); [discriminate|].
      destruct (os_alloc os (bufsize + CSH_RL_BUFSIZE)); [apply IH; exact Hall|].
      discriminate.
    + apply IH. exact Hall.
Qed.

(** With no newline left in the input, [csh_read_line] returns no line,
    however many characters come before the end of the stream. *)
Lemma csh_read_line_needs_newline os w :
  all_chars (fun c => negb (Ascii.eqb c newline)) (w_stdin w) = true ->
  forall line w', csh_read_line os w <> Ret line w'.
Proof.
  intros Hall line w'. unfold csh_read_line.
  destruct (os_alloc os (1 * CSH_RL_BUFSIZE)); [|discriminate].
  apply read_line_loop_needs_newline. exact Hall.
Qed.

(** C1: on the input [ab] followed by the end of the stream, the default
    [csh_read_line] exits with status 0 and the two characters are lost,
    while the variant built on getline returns the line [ab]. *)
Theorem read_line_drops_partial_line_at_eof :
  csh_read_line demo_os (world0 "ab") = Exited EXIT_SUCCESS (world0 "") /\
  csh_read_line_getline (world0 "ab") = Ret "ab" (world0 "").
Proof.
  split; reflexivity.
Qed.

(** ** Splitting a line *)

Lemma is_delim_spec c :
  is_delim c = true <->
  c = " "%char \/ c = "009"%char \/ c = "013"%char \/ c = "010"%char \/ c = "007"%char.
Proof.
  unfold is_delim, CSH_TOK_DELIM. cbn [mem_char].
  rewrite !orb_true_iff, !Ascii.eqb_eq. intuition discriminate.
Qed.

Lemma take_token_no_delim delim s :
  all_chars (fun c => negb (mem_char c delim)) (fst (take_token delim s)) = true.
Proof.
  induction s as [|c s IH]; [reflexivity|].
  cbn [take_token]. destruct (mem_char c delim) eqn:E; [reflexivity|].
  destruct (take_token delim s) as [t r]. cbn [fst all_chars] in *.
  rewrite E, IH. reflexivity.
Qed.

Lemma skip_delims_head delim s c r :
  skip_delims delim s = String c r -> mem_char c delim = false.
Proof.
  induction s as [|d s IH]; [discriminate|].
  cbn [skip_delims]. destruct (mem_char d delim) eqn:E; [exact IH|].
  intros H. injection H as <- _. exact E.
Qed.

Lemma skip_delims_all delim s :
  all_chars (fun c => mem_char c delim) s = true ->
  skip_delims delim s = EmptyString.
Proof.
  induction s as [|c s IH]; [reflexivity|].
  cbn [all_chars skip_delims]. intros H. apply andb_prop in H as [Hc Hs].
  rewrite Hc. apply IH. exact Hs.
Qed.

Lemma strtok_token_good s save t :
  fst (strtok s CSH_TOK_DELIM save) = Some t -> good_token t.
Proof.
  unfold strtok.
  destruct (skip_delims CSH_TOK_DELIM
              match s with Some l => cstr l | None => save end)
    as [|c r] eqn:E; [discriminate|].
  apply skip_delims_head in E.
  pose proof (take_token_no_delim CSH_TOK_DELIM (String c r)) as Hno.
  cbn [take_token] in *. rewrite E in *.
  destruct (take_token CSH_TOK_DELIM r) as [t' rest]. cbn [fst] in *.
  intros H. injection H as <-. split; [discriminate | exact Hno].
Qed.

Lemma store_at_end (tokens : TokenVector) v :
  store tokens (Z.of_nat (List.length tokens)) v = (tokens ++ [v])%list.
Proof.
  unfold store. rewrite Nat2Z.id, firstn_all. reflexivity.
Qed.

(** The loop keeps what the array holds: good tokens only, [position] of
    them; it leaves the world alone and ends the array with NULL. *)
Lemma split_loop_returns os n :
  forall token save toks position bufsize w tv w',
    (loop_measure token save < n)%nat ->
    position = Z.of_nat (List.length toks) ->
    (forall t, token = Some t -> good_token t) ->
    Forall good_token toks ->
    split_loop os token save (map Some toks) position bufsize w = Ret tv w' ->
    w' = w /\
    exists toks', tv = (map Some toks' ++ [None])%list /\ Forall good_token toks'.
Proof.
  induction n as [|n IH]; intros token save toks position bufsize w tv w'
    Hm Hpos Htok Hgood H; [lia|].
  destruct token as [t|].
  - rewrite split_loop_equation_1 in H. cbv zeta in H.
    assert (Hstore : store (map Some toks) position (Some t)
                     = map Some (toks ++ [t])%list).
    { subst position. rewrite <- (length_map Some toks), store_at_end, map_app.
      reflexivity. }
    rewrite Hstore in H.
    assert (Hnext : split_loop os (fst (strtok None CSH_TOK_DELIM save))
                      (snd (strtok None CSH_TOK_DELIM save))
                      (map Some (toks ++ [t])%list) (position + 1)
                      (if position + 1 >=? bufsize
                       then bufsize + CSH_TOK_BUFSIZE else bufsize) w
                    = Ret tv w').
    { destruct (position + 1 >=? bufsize); [|exact H].
      destruct (bufsize + CSH_TOK_BUFSIZE >? INT_MAX); [discriminate|].
      destruct (os_alloc os ((bufsize + CSH_TOK_BUFSIZE) * os_sizeof_ptr os));
        [exact H | discriminate]. }
    apply IH in Hnext; [exact Hnext | | | |].
    + pose proof (strtok_measure CSH_TOK_DELIM save). simpl in Hm. lia.
    + rewrite length_app. simpl. lia.
    + intros t' Ht'. apply (strtok_token_good None save). exact Ht'.
    + apply Forall_app. split; [exact Hgood|]. constructor; [|constructor].
      apply Htok. reflexivity.
  - rewrite split_loop_equation_2 in H. injection H as <- <-.
    split; [reflexivity|]. exists toks. split; [|exact Hgood].
    subst position. rewrite <- (length_map Some toks), store_at_end. reflexivity.
Qed.

Lemma csh_split_line_returns os line w tv w' :
  csh_split_line os line w = Ret tv w' ->
  w' = w /\
  exists toks, tv = (map Some toks ++ [None])%list /\ Forall good_token toks.
Proof.
  unfold csh_split_line.
  destruct (os_alloc os (CSH_TOK_BUFSIZE * os_sizeof_ptr os)); [|discriminate].
  cbv zeta. intros H.
  refine (split_loop_returns os _ _ _ [] 0 CSH_TOK_BUFSIZE w tv w'
            (Nat.lt_succ_diag_r _) _ _ _ H).
  - reflexivity.
  - intros t Ht. apply (strtok_token_good (Some line) EmptyString). exact Ht.
  - constructor.
Qed.

(** With memory to be had and room below [INT_MAX], the loop returns. *)
Lemma split_loop_total os (Halloc : forall size, os_alloc os size = true) n :
  forall token save tokens position bufsize w,
    (loop_measure token save < n)%nat ->
    position < bufsize ->
    bufsize <= position + CSH_TOK_BUFSIZE ->
    position + Z.of_nat (loop_measure token save) + CSH_TOK_BUFSIZE <= INT_MAX ->
    exists tv, split_loop os token save tokens position bufsize w = Ret tv w.
Proof.
  induction n as [|n IH]; intros token save tokens position bufsize w
    Hm Hlt Hle Hmax; [lia|].
  destruct token as [t|].
  - rewrite split_loop_equation_1. cbv zeta.
    pose proof (strtok_measure CSH_TOK_DELIM save) as Hdec.
    cbn [loop_measure] in Hm, Hmax.
    unfold CSH_TOK_BUFSIZE in *.
    destruct (position + 1 >=? bufsize) eqn:Hgrow.
    + apply Z.geb_le in Hgrow.
      destruct (bufsize + 64 >? INT_MAX) eqn:Hov.
      * apply Z.gtb_lt in Hov. lia.
      * rewrite Halloc. apply IH; lia.
    + rewrite Z.geb_leb in Hgrow. apply Z.leb_gt in Hgrow.
      apply IH; lia.
  - rewrite split_loop_equation_2. eauto.
Qed.

(** C5: a line whose characters are all delimiters (or that has none)
    yields, once the array is allocated, the vector that holds just NULL;
    and whatever the line, no vector the tokenizer returns holds an empty
    token, so delimiters in a row produce nothing. *)
Theorem delimiter_only_line_gives_null os :
  (forall line w,
      all_chars is_delim (cstr line) = true ->
      os_alloc os (CSH_TOK_BUFSIZE * os_sizeof_ptr os) = true ->
      csh_split_line os line w = Ret [None] w /\ args_at [None] 0 = None) /\
  (forall line w tv w',
      csh_split_line os line w = Ret tv w' ->
      ~ In (Some EmptyString) tv).
Proof.
  split.
  - intros line w Hall Halloc. split; [|reflexivity].
    unfold csh_split_line, strtok. rewrite Halloc. cbv zeta.
    rewrite (skip_delims_all CSH_TOK_DELIM (cstr line) Hall). cbn [fst snd].
    rewrite split_loop_equation_2. reflexivity.
  - intros line w tv w' H Hin.
    apply csh_split_line_returns in H. destruct H as (_ & toks & -> & Hgood).
    apply in_app_or in Hin. destruct Hin as [Hin | [Hin | []]]; [|discriminate].
    apply in_map_iff in Hin. destruct Hin as (t & Ht & Hin).
    injection Ht as ->.
    rewrite Forall_forall in Hgood. destruct (Hgood _ Hin) as [Hne _].
    apply Hne. reflexivity.
Qed.

Lemma delimiter_only_line_witness :
  csh_split_line demo_os (String " "%char (String "009"%char (String "013"%char
                            (String "007"%char " "))))
    (world0 "") = Ret [None] (world0 "").
Proof.
  refine (proj1 (proj1 (delimiter_only_line_gives_null demo_os) _ (world0 "") _ _));
    reflexivity.
Defined.

(** C10: every vector [csh_split_line] returns is a row of tokens, each of
    them not empty and free of the delimiters space, tab, carriage return,
    newline and bell, with NULL in the slot after the last token; and it
    does return one when allocation succeeds and the line is short enough
    for the [int] counters. *)
Theorem split_line_vector_well_formed os line w :
  (forall tv w',
      csh_split_line os line w = Ret tv w' ->
      exists toks,
        tv = (map Some toks ++ [None])%list /\
        args_at tv (List.length toks) = None /\
        Forall (fun t => t <> EmptyString /\
                         all_chars (fun c => negb (mem_char c CSH_TOK_DELIM)) t = true)
               toks) /\
  ((forall size, os_alloc os size = true) ->
   Z.of_nat (String.length (cstr line)) + CSH_TOK_BUFSIZE <= INT_MAX ->
   exists tv, csh_split_line os line w = Ret tv w).
Proof.
  split.
  - intros tv w' H. apply csh_split_line_returns in H.
    destruct H as (_ & toks & -> & Hgood).
    exists toks. split; [reflexivity|]. split; [|exact Hgood].
    unfold args_at. rewrite app_nth2; rewrite length_map; [|lia].
    rewrite Nat.sub_diag. reflexivity.
  - intros Halloc Hlen. unfold csh_split_line. rewrite Halloc. cbv zeta.
    apply (split_loop_total os Halloc _ _ _ _ _ _ _ (Nat.lt_succ_diag_r _)).
    + reflexivity.
    + unfold CSH_TOK_BUFSIZE. lia.
    + pose proof (strtok_measure CSH_TOK_DELIM (cstr line)) as Hdec.
      change (strtok (Some line) CSH_TOK_DELIM EmptyString)
        with (strtok None CSH_TOK_DELIM (cstr line)).
      lia.
Qed.

Lemma split_line_vector_witness :
  exists tv, csh_split_line demo_os "ls -la /tmp" (world0 "") = Ret tv (world0 "").
Proof.
  refine (proj2 (split_line_vector_well_formed demo_os "ls -la /tmp" (world0 "")) _ _).
  - intros size. reflexivity.
  - vm_compute. discriminate.
Defined.

(** * Further properties *)

(** ** Dispatch by name *)

Lemma strcmp_eqb a b :
  nul_free a = true -> nul_free b = true ->
  (strcmp a b =? 0) = String.eqb a b.
Proof.
  intros Ha Hb. pose proof (strcmp_zero_iff a b Ha Hb) as Hiff.
  destruct (String.eqb_spec a b) as [Heq|Hne].
  - apply Z.eqb_eq. apply Hiff. exact Heq.
  - apply Z.eqb_neq. intros H. apply Hne. apply Hiff. exact H.
Qed.

Lemma execute_loop_tests os name args w :
  execute_loop os csh_num_builtins 0 name args w =
    if strcmp name "cd" =? 0 then csh_cd os args w
    else if strcmp name "help" =? 0 then csh_help args w
    else if strcmp name "exit" =? 0 then csh_exit args w
    else csh_launch os args w.
Proof.
  change (execute_loop os csh_num_builtins 0 name args w) with
    ((if strcmp name "cd" =? 0 then csh_cd os args
      else if strcmp name "help" =? 0 then csh_help args
      else if strcmp name "exit" =? 0 then csh_exit args
      else csh_launch os args) w).
  destruct (strcmp name "cd" =? 0); [reflexivity|].
  destruct (strcmp name "help" =? 0); [reflexivity|].
  destruct (strcmp name "exit" =? 0); reflexivity.
Qed.

(** X1: [csh_execute] chooses by the exact name in [args[0]] (a string
    without NUL): cd, help and exit run the builtin of that name on the
    whole vector, every other name goes to [csh_launch]. *)
Theorem execute_dispatches_by_name os args name w :
  args_at args 0 = Some name ->
  nul_free name = true ->
  csh_execute os args w =
    if String.eqb name "cd" then csh_cd os args w
    else if String.eqb name "help" then csh_help args w
    else if String.eqb name "exit" then csh_exit args w
    else csh_launch os args w.
Proof.
  intros H Hnul. unfold csh_execute. rewrite H, execute_loop_tests.
  rewrite !(strcmp_eqb name) by (exact Hnul || reflexivity).
  reflexivity.
Qed.

Lemma execute_dispatches_witness :
  csh_execute demo_os [Some "cdx"; Some "/tmp"; None] (world0 "")
  = csh_launch demo_os [Some "cdx"; Some "/tmp"; None] (world0 "").
Proof.
  exact (execute_dispatches_by_name demo_os [Some "cdx"; Some "/tmp"; None]
           "cdx" (world0 "") eq_refl eq_refl).
Defined.

Lemma csh_help_returns_1 args w v w' : csh_help args w = Ret v w' -> v = 1.
Proof.
  rewrite csh_help_prints. intros H. inversion H. reflexivity.
Qed.

(** X2: on a vector of tokens without NUL, [csh_execute] returns 1 in every
    case but one: it returns 0 only when [args[0]] is exit, and then it
    leaves the world as it was. *)
Theorem only_exit_ends_the_loop os args w v w' :
  (forall name, args_at args 0 = Some name -> nul_free name = true) ->
  csh_execute os args w = Ret v w' ->
  v = 1 \/ (v = 0 /\ args_at args 0 = Some "exit" /\ w' = w).
Proof.
  intros Hnul H. unfold csh_execute in H.
  destruct (args_at args 0) as [name|] eqn:E.
  - specialize (Hnul name eq_refl).
    rewrite execute_loop_tests in H.
    rewrite !(strcmp_eqb name) in H by (exact Hnul || reflexivity).
    destruct (String.eqb name "cd").
    { left. destruct (csh_cd_returns_1 os args w) as [w1 H1].
      rewrite H1 in H. inversion H. reflexivity. }
    destruct (String.eqb name "help").
    { left. exact (csh_help_returns_1 _ _ _ _ H). }
    destruct (String.eqb_spec name "exit") as [-> | _].
    { right. inversion H. auto. }
    left. exact (csh_launch_returns_1 _ _ _ _ _ H).
  - left. inversion H. reflexivity.
Qed.

Lemma only_exit_ends_witness :
  0 = 1 \/ (0 = 0 /\ args_at [Some "exit"; Some "now"; None] 0 = Some "exit"
            /\ world0 "rest" = world0 "rest").
Proof.
  refine (only_exit_ends_the_loop demo_os [Some "exit"; Some "now"; None]
            (world0 "rest") 0 (world0 "rest") _ eq_refl).
  intros name H. injection H as <-. reflexivity.
Defined.

(** ** The child and the stopped child *)

(** X3: in the child [csh_launch] never returns to the caller: when execvp
    succeeds the image is replaced, when it fails with [e] the child prints
    the system's message for [e] and exits with [EXIT_FAILURE]. *)
Theorem launch_child_execs_or_exits os args w :
  os_fork os w = InChild ->
  (forall v w', csh_launch os args w <> Ret v w') /\
  match os_execvp os (emit SysFork w) (args_at args 0) args with
  | None =>
      csh_launch os args w
      = Replaced (emit (SysExecvp (args_at args 0) args) (emit SysFork w))
  | Some e =>
      csh_launch os args w
      = Exited EXIT_FAILURE
          (emit (Stderr ("lsh: " ++ os_strerror os e ++ LF))
             (set_errno e (emit (SysExecvp (args_at args 0) args) (emit SysFork w))))
  end.
Proof.
  intros Hf. unfold csh_launch. rewrite Hf.
  unfold bind, execvp, perror, exit, ret.
  destruct (os_execvp os (emit SysFork w) (args_at args 0) args);
    split; try reflexivity; discriminate.
Qed.

Lemma launch_child_witness :
  csh_launch child_os [Some "no-such-program"; None] (world0 "")
  = Exited EXIT_FAILURE
      (mkWorld "" "/home" ENOENT
         [SysFork; SysExecvp (Some "no-such-program") [Some "no-such-program"; None];
          Stderr ("lsh: No such file or directory" ++ LF)]).
Proof.
  exact (proj2 (launch_child_execs_or_exits child_os
                  [Some "no-such-program"; None] (world0 "") eq_refl)).
Defined.

Lemma wait_loop_all_stopped pid stops :
  forallb (fun s => negb (WIFEXITED s) && negb (WIFSIGNALED s)) stops = true ->
  forall status w,
    wait_loop pid (map WaitStored stops) status w
    = Blocked (emit_all (map (fun s => SysWaitpid pid (WaitStored s)) stops) w).
Proof.
  induction stops as [|s stops IH]; intros Hstops status w.
  - simpl. unfold emit_all. rewrite app_nil_r. destruct w; reflexivity.
  - simpl in Hstops. apply andb_prop in Hstops as [Hs Hstops].
    cbn [map wait_loop]. rewrite Hs, (IH Hstops).
    unfold emit_all, emit. simpl. rewrite <- app_assoc. reflexivity.
Qed.

(** X4: when every answer of waitpid reports the child as stopped,
    [csh_launch] calls waitpid once per stop and then stays blocked in the
    next call: it does not return. *)
Theorem launch_blocks_on_stopped_child os args w pid stops :
  os_fork os w = InParent pid (map WaitStored stops) ->
  forallb (fun s => negb (WIFEXITED s) && negb (WIFSIGNALED s)) stops = true ->
  csh_launch os args w
  = Blocked (emit_all (SysFork :: map (fun s => SysWaitpid pid (WaitStored s)) stops) w).
Proof.
  intros Hf Hstops. unfold csh_launch. rewrite Hf. unfold bind.
  rewrite (wait_loop_all_stopped pid stops Hstops).
  unfold emit_all, emit. simpl. rewrite <- app_assoc. reflexivity.
Qed.

Lemma launch_blocks_witness :
  csh_launch stopped_os [Some "vi"; None] (world0 "")
  = Blocked (mkWorld "" "/home" 0
               [SysFork; SysWaitpid 7 (WaitStored (StStopped 19));
                SysWaitpid 7 (WaitStored (StStopped 20))]).
Proof.
  exact (launch_blocks_on_stopped_child stopped_os [Some "vi"; None] (world0 "")
           7 [StStopped 19; StStopped 20] eq_refl eq_refl).
Defined.

(** ** Reading a line: what is returned, what is left *)

Lemma string_app_assoc (a b c : string) : (a ++ b) ++ c = a ++ (b ++ c).
Proof.
  induction a as [|x a IH]; simpl; [reflexivity|]. rewrite IH. reflexivity.
Qed.

Lemma string_app_nil_r (a : string) : a ++ EmptyString = a.
Proof.
  induction a as [|x a IH]; simpl; [reflexivity|]. rewrite IH. reflexivity.
Qed.

Lemma string_length_app (a b : string) :
  String.length (a ++ b) = (String.length a + String.length b)%nat.
Proof.
  induction a as [|x a IH]; simpl; [reflexivity|]. rewrite IH. reflexivity.
Qed.

Lemma set_stdin_same w : set_stdin (w_stdin w) w = w.
Proof. destruct w; reflexivity. Qed.

Lemma read_line_loop_line os (Halloc : forall size, os_alloc os size = true) line :
  forall rest buffer position bufsize w,
    all_chars (fun c => negb (Ascii.eqb c newline)) line = true ->
    position < bufsize ->
    bufsize <= position + CSH_RL_BUFSIZE ->
    position + Z.of_nat (String.length line) + CSH_RL_BUFSIZE <= INT_MAX ->
    read_line_loop os (line ++ String newline rest) buffer position bufsize w
    = Ret (buffer ++ line) (set_stdin rest w).
Proof.
  unfold CSH_RL_BUFSIZE.
  induction line as [|c line IH]; intros rest buffer position bufsize w
    Hnl Hlt Hle Hmax.
  - cbn [append read_line_loop]. rewrite Ascii.eqb_refl, string_app_nil_r.
    reflexivity.
  - cbn [all_chars] in Hnl. apply andb_prop in Hnl as [Hc Hnl].
    apply negb_true_iff in Hc.
    cbn [append read_line_loop String.length] in *. rewrite Hc.
    unfold CSH_RL_BUFSIZE.
    replace (buffer ++ String c line) with ((buffer ++ String c EmptyString) ++ line)
      by (rewrite string_app_assoc; reflexivity).
    destruct (position + 1 >=? bufsize) eqn:Hgrow.
    + apply Z.geb_le in Hgrow.
      destruct (bufsize + 1024 >? INT_MAX) eqn:Hov.
      * apply Z.gtb_lt in Hov. lia.
      * rewrite Halloc. rewrite IH by (assumption || lia). reflexivity.
    + rewrite Z.geb_leb in Hgrow. apply Z.leb_gt in Hgrow.
      rewrite IH by (assumption || lia). reflexivity.
Qed.

Lemma csh_read_line_line os w line rest :
  (forall size, os_alloc os size = true) ->
  all_chars (fun c => negb (Ascii.eqb c newline)) line = true ->
  Z.of_nat (String.length line) + CSH_RL_BUFSIZE <= INT_MAX ->
  w_stdin w = line ++ String newline rest ->
  csh_read_line os w = Ret line (set_stdin rest w).
Proof.
  intros Halloc Hnl Hmax Hin. unfold csh_read_line.
  rewrite Halloc, Hin.
  rewrite (read_line_loop_line os Halloc line rest EmptyString 0 CSH_RL_BUFSIZE w Hnl);
    unfold CSH_RL_BUFSIZE in *; try lia.
  reflexivity.
Qed.

(** X5: with memory to be had, when the input starts with a line of fewer
    than [INT_MAX - 1024] characters ended by a newline, [csh_read_line]
    returns the characters before the newline, consumes the newline and
    leaves what follows unread; nothing is printed. *)
Theorem read_line_returns_first_line os w line rest :
  (forall size, os_alloc os size = true) ->
  all_chars (fun c => negb (Ascii.eqb c newline)) line = true ->
  Z.of_nat (String.length line) + CSH_RL_BUFSIZE <= INT_MAX ->
  w_stdin w = line ++ String newline rest ->
  csh_read_line os w = Ret line (set_stdin rest w).
Proof.
  intros Halloc Hnl Hmax Hin.
  exact (csh_read_line_line os w line rest Halloc Hnl Hmax Hin).
Qed.

Lemma read_line_returns_witness :
  csh_read_line demo_os (world0 ("cd /tmp" ++ LF ++ "ls" ++ LF))
  = Ret "cd /tmp" (world0 ("ls" ++ LF)).
Proof.
  refine (read_line_returns_first_line demo_os (world0 ("cd /tmp" ++ LF ++ "ls" ++ LF))
            "cd /tmp" ("ls" ++ LF) _ eq_refl _ eq_refl).
  - intros size. reflexivity.
  - vm_compute. discriminate.
Defined.

Lemma read_line_loop_no_newline os (Halloc : forall size, os_alloc os size = true) input :
  forall buffer position bufsize w,
    all_chars (fun c => negb (Ascii.eqb c newline)) input = true ->
    w_stdin w = input ->
    position < bufsize ->
    bufsize <= position + CSH_RL_BUFSIZE ->
    position + Z.of_nat (String.length input) + CSH_RL_BUFSIZE <= INT_MAX ->
    read_line_loop os input buffer position bufsize w
    = Exited EXIT_SUCCESS (set_stdin EmptyString w).
Proof.
  unfold CSH_RL_BUFSIZE.
  induction input as [|c input IH]; intros buffer position bufsize w
    Hnl Hin Hlt Hle Hmax.
  - cbn [read_line_loop]. unfold exit. rewrite <- Hin, set_stdin_same. reflexivity.
  - cbn [all_chars] in Hnl. apply andb_prop in Hnl as [Hc Hnl].
    apply negb_true_iff in Hc.
    cbn [read_line_loop String.length] in *. rewrite Hc.
    unfold CSH_RL_BUFSIZE.
    destruct (position + 1 >=? bufsize) eqn:Hgrow.
    + apply Z.geb_le in Hgrow.
      destruct (bufsize + 1024 >? INT_MAX) eqn:Hov.
      * apply Z.gtb_lt in Hov. lia.
      * rewrite Halloc. rewrite IH by (assumption || reflexivity || lia). reflexivity.
    + rewrite Z.geb_leb in Hgrow. apply Z.leb_gt in Hgrow.
      rewrite IH by (assumption || reflexivity || lia). reflexivity.
Qed.

(** X6: with memory to be had, when the input holds no newline (and fewer
    than [INT_MAX - 1024] characters), [csh_read_line] reads it to the end
    and exits with status 0: it returns nothing and prints nothing,
    whatever was read. *)
Theorem read_line_without_newline_exits os w :
  (forall size, os_alloc os size = true) ->
  all_chars (fun c => negb (Ascii.eqb c newline)) (w_stdin w) = true ->
  Z.of_nat (String.length (w_stdin w)) + CSH_RL_BUFSIZE <= INT_MAX ->
  csh_read_line os w = Exited EXIT_SUCCESS (set_stdin EmptyString w).
Proof.
  intros Halloc Hnl Hmax. unfold csh_read_line. rewrite Halloc.
  apply (read_line_loop_no_newline os Halloc); unfold CSH_RL_BUFSIZE in *;
    try assumption; try reflexivity; lia.
Qed.

Lemma read_line_without_newline_witness :
  csh_read_line demo_os (world0 "exit") = Exited EXIT_SUCCESS (world0 "").
Proof.
  refine (read_line_without_newline_exits demo_os (world0 "exit") _ eq_refl _).
  - intros size. reflexivity.
  - vm_compute. discriminate.
Defined.

Lemma read_line_loop_exits os input :
  forall buffer position bufsize w code w',
    w_stdin w = input ->
    read_line_loop os input buffer position bufsize w = Exited code w' ->
    (code = EXIT_SUCCESS /\ w_stdin w' = EmptyString /\ w_trace w' = w_trace w) \/
    (code = EXIT_FAILURE /\
     w_trace w' = (w_trace w ++ [Stderr ("lsh: allocation error" ++ LF)])%list).
Proof.
  induction input as [|c input IH]; intros buffer position bufsize w code w' Hin H.
  - cbn [read_line_loop] in H. unfold exit in H. inversion H; subst. auto.
  - cbn [read_line_loop] in H.
    destruct (Ascii.eqb c newline); [discriminate|].
    assert (Hstep : forall bs,
               read_line_loop os input (buffer ++ String c EmptyString)
                 (position + 1) bs (set_stdin input w) = Exited code w' ->
               (code = EXIT_SUCCESS /\ w_stdin w' = EmptyString /\
                w_trace w' = w_trace w) \/
               (code = EXIT_FAILURE /\
                w_trace w' = (w_trace w ++ [Stderr ("lsh: allocation error" ++ LF)])%list)).
    { intros bs Hbs. apply IH in Hbs; [exact Hbs | reflexivity]. }
    destruct (position + 1 >=? bufsize); [|exact (Hstep _ H)].
    destruct (bufsize + CSH_RL_BUFSIZE >? INT_MAX); [discriminate|].
    destruct (os_alloc os (bufsize + CSH_RL_BUFSIZE)); [exact (Hstep _ H)|].
    right. unfold allocation_error, bind, fprintf_stderr, exit in H.
    inversion H; subst. split; reflexivity.
Qed.

(** X7: [csh_read_line] ends the process in two ways only: with status 0 at
    the end of the input, all of it read and nothing printed, or with
    [EXIT_FAILURE] after the message [lsh: allocation error] on standard
    error. *)
Theorem read_line_exit_codes os w code w' :
  csh_read_line os w = Exited code w' ->
  (code = EXIT_SUCCESS /\ w_stdin w' = EmptyString /\ w_trace w' = w_trace w) \/
  (code = EXIT_FAILURE /\
   w_trace w' = (w_trace w ++ [Stderr ("lsh: allocation error" ++ LF)])%list).
Proof.
  unfold csh_read_line. intros H.
  destruct (os_alloc os (1 * CSH_RL_BUFSIZE)).
  - apply (read_line_loop_exits os (w_stdin w) _ _ _ w code w' eq_refl H).
  - right. unfold allocation_error, bind, fprintf_stderr, exit in H.
    inversion H; subst. split; reflexivity.
Qed.

Lemma read_line_exit_codes_witness :
  (EXIT_FAILURE = EXIT_SUCCESS /\ "ls" = EmptyString /\
   [Stderr ("lsh: allocation error" ++ LF)] = []) \/
  (EXIT_FAILURE = EXIT_FAILURE /\
   [Stderr ("lsh: allocation error" ++ LF)]
   = ([] ++ [Stderr ("lsh: allocation error" ++ LF)])%list).
Proof.
  exact (read_line_exit_codes nomem_os (world0 "ls") EXIT_FAILURE
           (mkWorld "ls" "/home" 0 [Stderr ("lsh: allocation error" ++ LF)])
           eq_refl).
Defined.

(** ** Splitting a line: which tokens *)

Lemma push_token_cons cur l : cur <> EmptyString -> push_token cur l = cur :: l.
Proof. destruct cur; [congruence | reflexivity]. Qed.

Lemma app_char_not_empty cur c : cur ++ String c EmptyString <> EmptyString.
Proof. destruct cur; discriminate. Qed.

Lemma scan_skip_delims s :
  scan_tokens s EmptyString = scan_tokens (skip_delims CSH_TOK_DELIM s) EmptyString.
Proof.
  induction s as [|c s IH]; [reflexivity|].
  cbn [scan_tokens skip_delims]. unfold is_delim.
  destruct (mem_char c CSH_TOK_DELIM) eqn:E; [exact IH|].
  cbn [scan_tokens]. unfold is_delim. rewrite E. reflexivity.
Qed.

Lemma scan_take_token s :
  forall cur,
    cur <> EmptyString \/
    (exists c r, s = String c r /\ mem_char c CSH_TOK_DELIM = false) ->
    scan_tokens s cur
    = (cur ++ fst (take_token CSH_TOK_DELIM s))
        :: scan_tokens (snd (take_token CSH_TOK_DELIM s)) EmptyString.
Proof.
  induction s as [|c s IH]; intros cur Hcur.
  - destruct Hcur as [Hcur | (c & r & H & _)]; [|discriminate].
    cbn [scan_tokens take_token fst snd].
    rewrite string_app_nil_r. apply push_token_cons. exact Hcur.
  - cbn [scan_tokens take_token]. unfold is_delim.
    destruct (mem_char c CSH_TOK_DELIM) eqn:E.
    + destruct Hcur as [Hcur | (c' & r & H & Hc')].
      * cbn [fst snd]. rewrite string_app_nil_r. apply push_token_cons. exact Hcur.
      * injection H as <- <-. congruence.
    + rewrite (IH (cur ++ String c EmptyString))
        by (left; apply app_char_not_empty).
      destruct (take_token CSH_TOK_DELIM s) as [t r]. cbn [fst snd].
      rewrite string_app_assoc. reflexivity.
Qed.

Lemma strtok_scan save :
  loop_tokens (fst (strtok None CSH_TOK_DELIM save))
              (snd (strtok None CSH_TOK_DELIM save))
  = scan_tokens save EmptyString.
Proof.
  rewrite (scan_skip_delims save). unfold strtok.
  destruct (skip_delims CSH_TOK_DELIM save) as [|c r] eqn:E; [reflexivity|].
  apply skip_delims_head in E.
  rewrite (scan_take_token (String c r) EmptyString)
    by (right; exists c, r; auto).
  destruct (take_token CSH_TOK_DELIM (String c r)) as [t rest]. reflexivity.
Qed.

Lemma split_loop_scan os n :
  forall token save toks position bufsize w tv w',
    (loop_measure token save < n)%nat ->
    position = Z.of_nat (List.length toks) ->
    split_loop os token save (map Some toks) position bufsize w = Ret tv w' ->
    tv = (map Some (toks ++ loop_tokens token save) ++ [None])%list.
Proof.
  induction n as [|n IH]; intros token save toks position bufsize w tv w'
    Hm Hpos H; [lia|].
  destruct token as [t|].
  - rewrite split_loop_equation_1 in H. cbv zeta in H.
    assert (Hstore : store (map Some toks) position (Some t)
                     = map Some (toks ++ [t])%list).
    { subst position. rewrite <- (length_map Some toks), store_at_end, map_app.
      reflexivity. }
    rewrite Hstore in H.
    assert (Hnext : split_loop os (fst (strtok None CSH_TOK_DELIM save))
                      (snd (strtok None CSH_TOK_DELIM save))
                      (map Some (toks ++ [t])%list) (position + 1)
                      (if position + 1 >=? bufsize
                       then bufsize + CSH_TOK_BUFSIZE else bufsize) w
                    = Ret tv w').
    { destruct (position + 1 >=? bufsize); [|exact H].
      destruct (bufsize + CSH_TOK_BUFSIZE >? INT_MAX); [discriminate|].
      destruct (os_alloc os ((bufsize + CSH_TOK_BUFSIZE) * os_sizeof_ptr os));
        [exact H | discriminate]. }
    apply IH in Hnext.
    + rewrite Hnext, strtok_scan, <- app_assoc. reflexivity.
    + pose proof (strtok_measure CSH_TOK_DELIM save). simpl in Hm. lia.
    + rewrite length_app. simpl. lia.
  - rewrite split_loop_equation_2 in H. injection H as <- _.
    subst position. rewrite <- (length_map Some toks), store_at_end.
    cbn [loop_tokens]. rewrite app_nil_r. reflexivity.
Qed.

Lemma csh_split_line_scan os line w tv w' :
  csh_split_line os line w = Ret tv w' ->
  tv = (map Some (scan_tokens (cstr line) EmptyString) ++ [None])%list.
Proof.
  unfold csh_split_line.
  destruct (os_alloc os (CSH_TOK_BUFSIZE * os_sizeof_ptr os)); [|discriminate].
  cbv zeta. intros H.
  change (strtok (Some line) CSH_TOK_DELIM EmptyString)
    with (strtok None CSH_TOK_DELIM (cstr line)) in H.
  rewrite (split_loop_scan os _ _ _ [] 0 CSH_TOK_BUFSIZE w tv w'
             (Nat.lt_succ_diag_r _) eq_refl H).
  rewrite strtok_scan. reflexivity.
Qed.

Lemma cstr_length s : (String.length (cstr s) <= String.length s)%nat.
Proof.
  induction s as [|c s IH]; simpl; [lia|].
  destruct (Ascii.eqb c NUL); simpl; lia.
Qed.

Lemma csh_split_line_total os line w :
  (forall size, os_alloc os size = true) ->
  Z.of_nat (String.length (cstr line)) + CSH_TOK_BUFSIZE <= INT_MAX ->
  csh_split_line os line w
  = Ret (map Some (scan_tokens (cstr line) EmptyString) ++ [None])%list w.
Proof.
  intros Halloc Hlen.
  assert (Hret : exists tv, csh_split_line os line w = Ret tv w).
  { unfold csh_split_line. rewrite Halloc. cbv zeta.
    apply (split_loop_total os Halloc _ _ _ _ _ _ _ (Nat.lt_succ_diag_r _)).
    - reflexivity.
    - unfold CSH_TOK_BUFSIZE. lia.
    - pose proof (strtok_measure CSH_TOK_DELIM (cstr line)) as Hdec.
      change (strtok (Some line) CSH_TOK_DELIM EmptyString)
        with (strtok None CSH_TOK_DELIM (cstr line)).
      lia. }
  destruct Hret as [tv Hret]. rewrite Hret.
  rewrite (csh_split_line_scan os line w tv w Hret). reflexivity.
Qed.

Lemma concat_empty_cons x xs :
  String.concat EmptyString (x :: xs) = x ++ String.concat EmptyString xs.
Proof.
  destruct xs; simpl; [rewrite string_app_nil_r|]; reflexivity.
Qed.

Lemma concat_push_token cur l :
  String.concat EmptyString (push_token cur l) = cur ++ String.concat EmptyString l.
Proof.
  destruct cur; [reflexivity|]. cbn [push_token]. apply concat_empty_cons.
Qed.

Lemma scan_tokens_concat s :
  forall cur,
    String.concat EmptyString (scan_tokens s cur) = cur ++ remove_delims s.
Proof.
  induction s as [|c s IH]; intros cur; cbn [scan_tokens remove_delims].
  - rewrite concat_push_token. reflexivity.
  - destruct (is_delim c).
    + rewrite concat_push_token, IH. reflexivity.
    + rewrite IH, string_app_assoc. reflexivity.
Qed.

(** X8: the tokens [csh_split_line] returns, put end to end, are the line
    (up to its first NUL) with the delimiters taken out: no other character
    is dropped, added or moved. *)
Theorem split_line_keeps_all_but_delimiters os line w tv w' :
  csh_split_line os line w = Ret tv w' ->
  exists toks,
    tv = (map Some toks ++ [None])%list /\
    String.concat EmptyString toks = remove_delims (cstr line).
Proof.
  intros H. apply csh_split_line_scan in H.
  exists (scan_tokens (cstr line) EmptyString). split; [exact H|].
  apply (scan_tokens_concat (cstr line) EmptyString).
Qed.

Lemma split_line_keeps_witness :
  exists toks,
    [Some "ls"; Some "-la"; Some "/tmp"; None] = (map Some toks ++ [None])%list /\
    String.concat EmptyString toks = remove_delims (cstr "  ls -la   /tmp ").
Proof.
  exact (split_line_keeps_all_but_delimiters demo_os "  ls -la   /tmp " (world0 "")
           [Some "ls"; Some "-la"; Some "/tmp"; None] (world0 "") eq_refl).
Defined.

Lemma scan_delims d :
  all_chars is_delim d = true ->
  forall s cur,
    scan_tokens (d ++ s) cur
    = match d with
      | EmptyString => scan_tokens s cur
      | String _ _ => push_token cur (scan_tokens s EmptyString)
      end.
Proof.
  induction d as [|c d IH]; intros Hd s cur; [reflexivity|].
  cbn [all_chars] in Hd. apply andb_prop in Hd as [Hc Hd].
  cbn [append scan_tokens]. rewrite Hc, (IH Hd).
  destruct d; reflexivity.
Qed.

Lemma scan_delims_front d s :
  all_chars is_delim d = true ->
  scan_tokens (d ++ s) EmptyString = scan_tokens s EmptyString.
Proof.
  intros Hd. rewrite (scan_delims d Hd). destruct d; reflexivity.
Qed.

Lemma scan_delims_back d :
  all_chars is_delim d = true ->
  forall s cur, scan_tokens (s ++ d) cur = scan_tokens s cur.
Proof.
  intros Hd. induction s as [|c s IH]; intros cur.
  - cbn [append]. rewrite <- (string_app_nil_r d), (scan_delims d Hd).
    destruct d; reflexivity.
  - cbn [append scan_tokens]. rewrite !IH. reflexivity.
Qed.

Lemma scan_token t :
  all_chars (fun c => negb (is_delim c)) t = true ->
  forall s cur, scan_tokens (t ++ s) cur = scan_tokens s (cur ++ t).
Proof.
  induction t as [|c t IH]; intros Ht s cur.
  - rewrite string_app_nil_r. reflexivity.
  - cbn [all_chars] in Ht. apply andb_prop in Ht as [Hc Ht].
    apply negb_true_iff in Hc.
    cbn [append scan_tokens]. rewrite Hc, (IH Ht), string_app_assoc. reflexivity.
Qed.

Lemma scan_joined sep toks :
  sep <> EmptyString ->
  all_chars is_delim sep = true ->
  Forall (fun t => t <> EmptyString /\
                   all_chars (fun c => negb (is_delim c)) t = true) toks ->
  scan_tokens (String.concat sep toks) EmptyString = toks.
Proof.
  intros Hne Hsep Hgood. induction Hgood as [|t toks [Ht Hnd] Hgood IH];
    [reflexivity|].
  destruct toks as [|t2 toks].
  - cbn [String.concat].
    pose proof (scan_token t Hnd EmptyString EmptyString) as H.
    rewrite string_app_nil_r in H. rewrite H.
    cbn [append scan_tokens]. apply push_token_cons. exact Ht.
  - change (String.concat sep (t :: t2 :: toks))
      with (t ++ sep ++ String.concat sep (t2 :: toks)).
    rewrite (scan_token t Hnd), (scan_delims sep Hsep).
    destruct sep as [|c sep]; [congruence|].
    cbn [append]. rewrite IH. apply push_token_cons. exact Ht.
Qed.

Lemma cstr_nul_free s : nul_free s = true -> cstr s = s.
Proof.
  unfold nul_free. induction s as [|c s IH]; [reflexivity|].
  cbn [all_chars cstr]. intros H. apply andb_prop in H as [Hc Hs].
  apply negb_true_iff in Hc. rewrite Hc, (IH Hs). reflexivity.
Qed.

Lemma cstr_app a b :
  cstr (a ++ b) = if nul_free a then a ++ cstr b else cstr a.
Proof.
  unfold nul_free. induction a as [|c a IH]; [reflexivity|].
  cbn [append cstr all_chars].
  destruct (Ascii.eqb c NUL); cbn [negb andb]; [reflexivity|].
  rewrite IH. destruct (all_chars (fun c0 => negb (Ascii.eqb c0 NUL)) a); reflexivity.
Qed.

Lemma delims_nul_free d : all_chars is_delim d = true -> nul_free d = true.
Proof.
  unfold nul_free. induction d as [|c d IH]; [reflexivity|].
  cbn [all_chars]. intros H. apply andb_prop in H as [Hc Hd].
  rewrite (IH Hd), andb_true_r.
  destruct (Ascii.eqb_spec c NUL) as [-> | _]; [discriminate Hc | reflexivity].
Qed.

Lemma nul_free_app a b : nul_free (a ++ b) = nul_free a && nul_free b.
Proof.
  unfold nul_free. induction a as [|c a IH]; [reflexivity|].
  cbn [append all_chars]. rewrite IH, andb_assoc. reflexivity.
Qed.

Lemma nul_free_concat sep toks :
  nul_free sep = true ->
  Forall (fun t => nul_free t = true) toks ->
  nul_free (String.concat sep toks) = true.
Proof.
  intros Hsep Htoks. induction Htoks as [|t toks Ht Htoks IH]; [reflexivity|].
  destruct toks as [|t2 toks]; [exact Ht|].
  change (String.concat sep (t :: t2 :: toks))
    with (t ++ sep ++ String.concat sep (t2 :: toks)).
  rewrite !nul_free_app, Ht, Hsep, IH. reflexivity.
Qed.

(** X9: splitting undoes joining.  Tokens that are not empty and hold
    neither a delimiter nor NUL, written one after the other with a
    separator made of one or more delimiters, are split back into the same
    tokens in the same order, followed by NULL (memory to be had, fewer
    than [INT_MAX - 64] characters); more than 64 tokens make the array
    grow and change nothing else. *)
Theorem split_line_undoes_join os sep toks w :
  (forall size, os_alloc os size = true) ->
  sep <> EmptyString ->
  all_chars is_delim sep = true ->
  Forall (fun t => t <> EmptyString /\
                   all_chars (fun c => negb (is_delim c)) t = true /\
                   nul_free t = true) toks ->
  Z.of_nat (String.length (String.concat sep toks)) + CSH_TOK_BUFSIZE <= INT_MAX ->
  csh_split_line os (String.concat sep toks) w
  = Ret (map Some toks ++ [None])%list w.
Proof.
  intros Halloc Hne Hsep Hgood Hlen.
  assert (Hnul : nul_free (String.concat sep toks) = true).
  { apply nul_free_concat; [apply delims_nul_free; exact Hsep|].
    eapply Forall_impl; [|exact Hgood]. intros t (_ & _ & H). exact H. }
  rewrite (csh_split_line_total os _ w Halloc)
    by (rewrite (cstr_nul_free _ Hnul); exact Hlen).
  rewrite (cstr_nul_free _ Hnul), (scan_joined sep toks Hne Hsep); [reflexivity|].
  eapply Forall_impl; [|exact Hgood]. intros t (H1 & H2 & _). auto.
Qed.

Lemma split_line_undoes_join_witness :
  csh_split_line demo_os
    (String.concat (String " "%char (String "009"%char EmptyString))
       ["grep"; "-n"; "main"; "src/main.c"])
    (world0 "")
  = Ret [Some "grep"; Some "-n"; Some "main"; Some "src/main.c"; None] (world0 "").
Proof.
  refine (split_line_undoes_join demo_os
            (String " "%char (String "009"%char EmptyString))
            ["grep"; "-n"; "main"; "src/main.c"] (world0 "") _ _ eq_refl _ _).
  - intros size. reflexivity.
  - discriminate.
  - repeat constructor; discriminate.
  - vm_compute. discriminate.
Defined.

(** X10: delimiters before and after a line do not count: with memory to
    be had, a line wrapped in any two runs of delimiters is split exactly as
    the line alone. *)
Theorem split_line_ignores_outer_delimiters os d1 line d2 w :
  (forall size, os_alloc os size = true) ->
  all_chars is_delim d1 = true ->
  all_chars is_delim d2 = true ->
  Z.of_nat (String.length d1 + String.length line + String.length d2)
    + CSH_TOK_BUFSIZE <= INT_MAX ->
  csh_split_line os (d1 ++ line ++ d2) w = csh_split_line os line w.
Proof.
  intros Halloc Hd1 Hd2 Hlen.
  pose proof (cstr_length line) as Hl1.
  pose proof (cstr_length (d1 ++ line ++ d2)) as Hl2.
  rewrite !string_length_app in Hl2.
  rewrite !(csh_split_line_total os _ w Halloc) by lia.
  f_equal. f_equal. f_equal.
  rewrite cstr_app, (delims_nul_free d1 Hd1), (scan_delims_front d1 _ Hd1).
  rewrite cstr_app. destruct (nul_free line) eqn:Hnul.
  - rewrite (cstr_nul_free d2 (delims_nul_free d2 Hd2)), (cstr_nul_free line Hnul).
    apply (scan_delims_back d2 Hd2).
  - reflexivity.
Qed.

Lemma split_line_outer_delimiters_witness :
  csh_split_line demo_os ("  " ++ "ls -la" ++ LF) (world0 "")
  = csh_split_line demo_os "ls -la" (world0 "").
Proof.
  refine (split_line_ignores_outer_delimiters demo_os "  " "ls -la" LF (world0 "")
            _ eq_refl eq_refl _).
  - intros size. reflexivity.
  - vm_compute. discriminate.
Defined.




(** ** The loop: one line, one command *)

(** One pass over a line ended by a newline: the prompt, then the command
    made of the tokens of the line, run on what follows the line. *)
Lemma csh_loop_body_line os w line rest :
  (forall size, os_alloc os size = true) ->
  all_chars (fun c => negb (Ascii.eqb c newline)) line = true ->
  Z.of_nat (String.length line) + CSH_RL_BUFSIZE <= INT_MAX ->
  w_stdin w = line ++ String newline rest ->
  csh_loop_body os w
  = csh_execute os (map Some (scan_tokens (cstr line) EmptyString) ++ [None])%list
      (emit (Stdout "> ") (set_stdin rest w)).
Proof.
  intros Halloc Hnl Hmax Hin.
  unfold csh_loop_body, bind at 1, printf.
  unfold bind at 1.
  rewrite (csh_read_line_line os (emit (Stdout "> ") w) line rest Halloc Hnl Hmax Hin).
  unfold bind at 1.
  pose proof (cstr_length line) as Hl. unfold CSH_RL_BUFSIZE in Hmax.
  rewrite (csh_split_line_total os line _ Halloc) by (unfold CSH_TOK_BUFSIZE; lia).
  unfold bind, ret.
  change (set_stdin rest (emit (Stdout "> ") w))
    with (emit (Stdout "> ") (set_stdin rest w)).
  destruct (csh_execute os _ _); reflexivity.
Qed.

Lemma first_word_scan line word :
  first_word line word ->
  word <> EmptyString ->
  all_chars (fun c => negb (is_delim c)) word = true ->
  nul_free word = true ->
  exists l, scan_tokens (cstr line) EmptyString = word :: l.
Proof.
  intros (d & tail & -> & Hd & Htail) Hne Hnd Hnul.
  rewrite cstr_app, (delims_nul_free d Hd), (scan_delims_front d _ Hd).
  rewrite cstr_app, Hnul, (scan_token word Hnd). cbn [append].
  destruct Htail as [-> | (c & t & -> & Hc)].
  - cbn [cstr scan_tokens]. exists []. apply push_token_cons. exact Hne.
  - cbn [cstr].
    destruct (Ascii.eqb_spec c NUL) as [-> | _]; [discriminate Hc|].
    cbn [scan_tokens]. rewrite Hc. eexists. apply push_token_cons. exact Hne.
Qed.

(** X12: a line whose first word is exit ends the session: the shell
    prints one prompt, reads that line and no further, runs nothing, and
    [main] returns [EXIT_SUCCESS]; what follows the line stays unread. *)
Theorem exit_line_ends_session os n argc argv w line rest :
  (forall size, os_alloc os size = true) ->
  all_chars (fun c => negb (Ascii.eqb c newline)) line = true ->
  Z.of_nat (String.length line) + CSH_RL_BUFSIZE <= INT_MAX ->
  w_stdin w = line ++ String newline rest ->
  first_word line "exit" ->
  main os (S n) argc argv w
  = Some (Ret EXIT_SUCCESS (emit (Stdout "> ") (set_stdin rest w))).
Proof.
  intros Halloc Hnl Hmax Hin Hfirst.
  unfold main. cbn [csh_loop].
  rewrite (csh_loop_body_line os w line rest Halloc Hnl Hmax Hin).
  destruct (first_word_scan line "exit" Hfirst) as [l Hl];
    [discriminate | reflexivity | reflexivity |].
  rewrite Hl. reflexivity.
Qed.

Lemma exit_line_ends_session_witness :
  main demo_os 1 1 [Some "./shell"; None] (world0 (" exit 7" ++ LF ++ "ls" ++ LF))
  = Some (Ret EXIT_SUCCESS (mkWorld ("ls" ++ LF) "/home" 0 [Stdout "> "])).
Proof.
  refine (exit_line_ends_session demo_os 0 1 [Some "./shell"; None]
            (world0 (" exit 7" ++ LF ++ "ls" ++ LF)) " exit 7" ("ls" ++ LF)
            _ eq_refl _ eq_refl _).
  - intros size. reflexivity.
  - vm_compute. discriminate.
  - exists " ", " 7". split; [reflexivity|]. split; [reflexivity|].
    right. exists " "%char, "7". split; reflexivity.
Defined.

(** X13: a line that holds nothing but delimiters (or nothing at all) runs
    no command: the shell prints the prompt, consumes the line and goes on
    with the next line, the world otherwise unchanged. *)
Theorem blank_line_only_prompts os n w line rest :
  (forall size, os_alloc os size = true) ->
  all_chars (fun c => negb (Ascii.eqb c newline)) line = true ->
  Z.of_nat (String.length line) + CSH_RL_BUFSIZE <= INT_MAX ->
  w_stdin w = line ++ String newline rest ->
  all_chars is_delim (cstr line) = true ->
  csh_loop os (S n) w = csh_loop os n (emit (Stdout "> ") (set_stdin rest w)).
Proof.
  intros Halloc Hnl Hmax Hin Hblank.
  cbn [csh_loop].
  rewrite (csh_loop_body_line os w line rest Halloc Hnl Hmax Hin).
  pose proof (scan_delims_front (cstr line) EmptyString Hblank) as Hs.
  rewrite string_app_nil_r in Hs. rewrite Hs. reflexivity.
Qed.

Lemma blank_line_witness :
  csh_loop demo_os 2 (world0 ("  " ++ LF ++ "exit" ++ LF))
  = csh_loop demo_os 1 (mkWorld ("exit" ++ LF) "/home" 0 [Stdout "> "]).
Proof.
  refine (blank_line_only_prompts demo_os 1 (world0 ("  " ++ LF ++ "exit" ++ LF))
            "  " ("exit" ++ LF) _ eq_refl _ eq_refl eq_refl).
  - intros size. reflexivity.
  - vm_compute. discriminate.
Defined.

Lemma no_delim_no_newline t :
  all_chars (fun c => negb (is_delim c)) t = true ->
  all_chars (fun c => negb (Ascii.eqb c newline)) t = true.
Proof.
  induction t as [|c t IH]; [reflexivity|].
  cbn [all_chars]. intros H. apply andb_prop in H as [Hc Ht].
  rewrite (IH Ht), andb_true_r.
  destruct (Ascii.eqb_spec c newline) as [-> | _]; [discriminate Hc | reflexivity].
Qed.

(** X14: the line [cd dir] acts on the shell itself and the session goes
    on: when the system accepts [dir] the next line is read in the new
    working directory and nothing is printed but the prompt; when it
    refuses, the system's message goes to standard error and the next line
    is read in the old directory. *)
Theorem cd_line_then_next_line os n w dir rest :
  (forall size, os_alloc os size = true) ->
  dir <> EmptyString ->
  all_chars (fun c => negb (is_delim c)) dir = true ->
  nul_free dir = true ->
  Z.of_nat (String.length dir) + 3 + CSH_RL_BUFSIZE <= INT_MAX ->
  w_stdin w = "cd " ++ dir ++ String newline rest ->
  csh_loop os (S n) w
  = csh_loop os n
      (let w1 := emit (SysChdir dir) (emit (Stdout "> ") (set_stdin rest w)) in
       match os_chdir os (w_cwd w) dir with
       | inr d => set_cwd d w1
       | inl e => emit (Stderr ("lsh: " ++ os_strerror os e ++ LF)) (set_errno e w1)
       end).
Proof.
  intros Halloc Hne Hnd Hnul Hmax Hin.
  cbn [csh_loop].
  rewrite (csh_loop_body_line os w ("cd " ++ dir) rest Halloc).
  - assert (Hline : nul_free ("cd " ++ dir) = true)
      by (rewrite nul_free_app, Hnul; reflexivity).
    rewrite (cstr_nul_free _ Hline).
    change ("cd " ++ dir) with (String.concat " " ["cd"; dir]).
    rewrite (scan_joined " " ["cd"; dir]);
      [ | discriminate | reflexivity
        | constructor; [split; [discriminate | reflexivity]|];
          constructor; [split; assumption | constructor] ].
    cbn [map app]. unfold csh_execute. cbn [args_at nth].
    rewrite execute_loop_tests.
    change (strcmp "cd" "cd" =? 0) with true. cbv iota.
    unfold csh_cd. cbn [args_at nth]. unfold bind, chdir, perror, ret.
    cbn [w_cwd emit set_stdin].
    destruct (os_chdir os (w_cwd w) dir); reflexivity.
  - cbn [append all_chars]. apply (no_delim_no_newline dir Hnd).
  - rewrite string_length_app. cbn [String.length]. lia.
  - rewrite Hin. rewrite string_app_assoc. reflexivity.
Qed.

Lemma cd_line_witness :
  csh_loop demo_os 2 (world0 ("cd /tmp" ++ LF ++ "exit" ++ LF))
  = csh_loop demo_os 1
      (mkWorld ("exit" ++ LF) "/tmp" 0 [Stdout "> "; SysChdir "/tmp"]).
Proof.
  refine (cd_line_then_next_line demo_os 1 (world0 ("cd /tmp" ++ LF ++ "exit" ++ LF))
            "/tmp" ("exit" ++ LF) _ _ eq_refl eq_refl _ eq_refl).
  - intros size. reflexivity.
  - discriminate.
  - vm_compute. discriminate.
Defined.
